(** * death-back: the round-resolution engine of src/index.js

    A shallow embedding of the [Player] and [DeathGame] classes and of the
    waiting-room handlers, followed by the properties of the round
    resolution, of the session state machine and of the room registry.

    Conventions of the embedding:
    - a JavaScript number is an IEEE-754 binary64 float ([PrimFloat.float]),
      with [===] as [PrimFloat.eqb], [<] as [PrimFloat.ltb] and
      [Array.prototype.includes] comparing by SameValueZero;
    - [points], [round] and [eliminatedCount] only ever hold small integers
      and are kept in [Z];
    - a JavaScript [Map] is an association list in insertion order whose
      [set] overwrites in place or appends;
    - a reference to a [Player] object is the key under which the object sits
      in [players] (the program stores every [Player] under its own id);
    - a [TypeError] raised by the code is the result [None]. *)

From Stdlib Require Import List String ZArith Bool Lia Floats.
Import ListNotations.

Local Open Scope Z_scope.

(** ** JavaScript [Map] keyed by strings *)

Module JSMap.

Definition t (V : Type) : Type := list (string * V).

Definition empty {V : Type} : t V := [].

Fixpoint get {V : Type} (m : t V) (k : string) : option V :=
  match m with
  | [] => None
  | (k', v) :: m' => if String.eqb k' k then Some v else get m' k
  end.

Definition has {V : Type} (m : t V) (k : string) : bool :=
  match get m k with Some _ => true | None => false end.

(** [set] keeps the position of a key that is already present. *)
Fixpoint set {V : Type} (m : t V) (k : string) (v : V) : t V :=
  match m with
  | [] => [(k, v)]
  | (k', v') :: m' =>
      if String.eqb k' k then (k', v) :: m' else (k', v') :: set m' k v
  end.

Fixpoint delete {V : Type} (m : t V) (k : string) : t V :=
  match m with
  | [] => []
  | (k', v') :: m' =>
      if String.eqb k' k then m' else (k', v') :: delete m' k
  end.

Definition size {V : Type} (m : t V) : Z := Z.of_nat (List.length m).

Definition keys {V : Type} (m : t V) : list string := map fst m.

Definition values {V : Type} (m : t V) : list V := map snd m.

(** The well-formedness every [Map] has: no key occurs twice. *)
Definition wf {V : Type} (m : t V) : Prop := NoDup (keys m).

End JSMap.

(** ** JavaScript numbers *)

Module Num.

Local Open Scope float_scope.

(** The literal [0.8]: the binary64 value nearest to 4/5. *)
Definition c0_8 : float := 0x1.999999999999ap-1.

Definition c100 : float := 100.

(** [a === b] on numbers. *)
Definition strictEq (a b : float) : bool := a =? b.

(** SameValueZero, the comparison of [Array.prototype.includes]: as [===]
    except that NaN equals NaN. *)
Definition sameValueZero (a b : float) : bool :=
  (a =? b) || (is_nan a && is_nan b).

(** [numbers.length] as a number. *)
Definition ofLength {A : Type} (l : list A) : float :=
  of_uint63 (Uint63.of_Z (Z.of_nat (List.length l))).

(** [numbers.indexOf(x)]: the first index whose element is [=== x], else -1. *)
Fixpoint indexOfFrom (l : list float) (x : float) (i : Z) : Z :=
  match l with
  | [] => (-1)%Z
  | y :: l' => if strictEq y x then i else indexOfFrom l' x (i + 1)%Z
  end.

Definition indexOf (l : list float) (x : float) : Z := indexOfFrom l x 0%Z.

(** [numbers.includes(x)]. *)
Definition includes (l : list float) (x : float) : bool :=
  existsb (fun y => sameValueZero y x) l.

(** [numbers.reduce((a, b) => a + b, 0)]. *)
Definition sum (l : list float) : float := fold_left add l 0.

End Num.

(** ** Players *)

Record Player : Type := mkPlayer {
  id : string;
  name : string;
  points : Z;
  isAlive : bool;
  number : option float
}.

(** [new Player(id, name)]. *)
Definition newPlayer (i n : string) : Player :=
  {| id := i; name := n; points := 0; isAlive := true; number := None |}.

(** [player.points += penalty]. *)
Definition addPoints (p : Player) (penalty : Z) : Player :=
  {| id := id p; name := name p; points := points p + penalty;
     isAlive := isAlive p; number := number p |}.

(** [player.isAlive = false]. *)
Definition kill (p : Player) : Player :=
  {| id := id p; name := name p; points := points p;
     isAlive := false; number := number p |}.

(** A value that holds [null], [undefined] or a reference to the [Player]
    stored under a key of [players]. *)
Inductive jsref : Type :=
| Null
| Undefined
| PlayerRef (key : string).

Definition jsref_eqb (a b : jsref) : bool :=
  match a, b with
  | Null, Null => true
  | Undefined, Undefined => true
  | PlayerRef k, PlayerRef k' => String.eqb k k'
  | _, _ => false
  end.

(** [players.get(playerId)] as a reference. *)
Definition playerRef (ps : JSMap.t Player) (playerId : string) : jsref :=
  if JSMap.has ps playerId then PlayerRef playerId else Undefined.

(** ** The game session *)

Inductive Phase : Type := waiting | playing | roundEnd.

Record DeathGame : Type := mkDeathGame {
  players : JSMap.t Player;
  round : Z;
  eliminatedCount : Z;
  roundStartTime : option Z;
  currentPhase : Phase;
  roundNumbers : JSMap.t float
}.

(** [new DeathGame(players)]. *)
Definition newDeathGame (ps : JSMap.t Player) : DeathGame :=
  {| players := ps; round := 1; eliminatedCount := 0;
     roundStartTime := None; currentPhase := waiting;
     roundNumbers := JSMap.empty |}.

(** [getAlivePlayers()], on the player map. *)
Definition alivePlayers (ps : JSMap.t Player) : list Player :=
  filter isAlive (JSMap.values ps).

Definition getAlivePlayers (g : DeathGame) : list Player :=
  alivePlayers (players g).

(** [getAlivePlayers().length]. *)
Definition aliveCount (ps : JSMap.t Player) : Z :=
  Z.of_nat (List.length (alivePlayers ps)).

Definition isNewRuleRound (g : DeathGame) : bool :=
  (round g =? 1)
  || (eliminatedCount g =? JSMap.size (players g) - 4)
  || (eliminatedCount g =? JSMap.size (players g) - 3)
  || (eliminatedCount g =? JSMap.size (players g) - 2).

Record RoundInfo : Type := mkRoundInfo {
  info_round : Z;
  info_timeLimit : Z;
  info_playersRemaining : Z
}.

(** [startRound()]; [now] is the value [Date.now()] returns. *)
Definition startRound (now : Z) (g : DeathGame) : DeathGame * RoundInfo :=
  let g' := {| players := players g; round := round g;
               eliminatedCount := eliminatedCount g;
               roundStartTime := Some now; currentPhase := playing;
               roundNumbers := JSMap.empty |} in
  (g', {| info_round := round g';
          info_timeLimit := if isNewRuleRound g' then 300 else 60;
          info_playersRemaining := aliveCount (players g') |}).

(** [submitNumber(playerId, number)]. *)
Definition submitNumber (g : DeathGame) (playerId : string) (num : float)
  : DeathGame * bool :=
  match currentPhase g with
  | playing =>
      if match JSMap.get (players g) playerId with
         | Some p => isAlive p
         | None => false
         end
      then
        let g' := {| players := players g; round := round g;
                     eliminatedCount := eliminatedCount g;
                     roundStartTime := roundStartTime g;
                     currentPhase := currentPhase g;
                     roundNumbers := JSMap.set (roundNumbers g) playerId num |} in
        (g', JSMap.size (roundNumbers g') =? aliveCount (players g'))
      else (g, false)
  | _ => (g, false)
  end.

(** *** [calculateRoundResults()] *)

(** [numbers.filter((num, index) => numbers.indexOf(num) !== index)]. *)
Fixpoint duplicatesFrom (numbers rest : list float) (index : Z) : list float :=
  match rest with
  | [] => []
  | num :: rest' =>
      if negb (Num.indexOf numbers num =? index)
      then num :: duplicatesFrom numbers rest' (index + 1)
      else duplicatesFrom numbers rest' (index + 1)
  end.

Definition duplicates (numbers : list float) : list float :=
  duplicatesFrom numbers numbers 0.

Definition average (numbers : list float) : float :=
  (Num.sum numbers / Num.ofLength numbers)%float.

Definition target (numbers : list float) : float :=
  (average numbers * Num.c0_8)%float.

(** The condition of the two-player rule. *)
Definition specialRule (g : DeathGame) : bool :=
  (aliveCount (players g) =? 2)
  && Num.includes (JSMap.values (roundNumbers g)) 0%float
  && Num.includes (JSMap.values (roundNumbers g)) Num.c100.

(** [entries.find(([_, num]) => num === 100)]. *)
Definition find100 (entries : JSMap.t float) : option (string * float) :=
  find (fun e => Num.strictEq (snd e) Num.c100) entries.

(** One iteration of the winner loop on [(closestPlayer, closestDistance)]. *)
Definition winnerStep (ps : JSMap.t Player) (dups : list float) (tgt : float)
  (acc : jsref * float) (e : string * float) : jsref * float :=
  if Num.includes dups (snd e) && (aliveCount ps <=? 4) then acc
  else
    let distance := abs (snd e - tgt)%float in
    if (distance <? snd acc)%float then (playerRef ps (fst e), distance)
    else acc.

Definition findWinner (ps : JSMap.t Player) (dups : list float) (tgt : float)
  (entries : JSMap.t float) : jsref * float :=
  fold_left (winnerStep ps dups tgt) entries (Null, infinity).

(** The penalty of one losing submission. *)
Definition penaltyOf (ps : JSMap.t Player) (tgt num : float) : Z :=
  if (aliveCount ps =? 3) && Num.strictEq num tgt then -1 * 2 else -1.

(** One iteration of the penalty loop; [None] once [player.points] was read
    from [undefined]. *)
Definition penaltyStep (closestPlayer : jsref) (tgt : float)
  (acc : option (JSMap.t Player)) (e : string * float)
  : option (JSMap.t Player) :=
  match acc with
  | None => None
  | Some ps =>
      if jsref_eqb (playerRef ps (fst e)) closestPlayer then Some ps
      else
        match JSMap.get ps (fst e) with
        | None => None
        | Some player =>
            Some (JSMap.set ps (fst e)
                    (addPoints player (penaltyOf ps tgt (snd e))))
        end
  end.

Definition applyPenalties (closestPlayer : jsref) (tgt : float)
  (ps : JSMap.t Player) (entries : JSMap.t float) : option (JSMap.t Player) :=
  fold_left (penaltyStep closestPlayer tgt) entries (Some ps).

(** The elimination loop over [players.values()]: the players after it, the
    counter after it and [newEliminations]. *)
Fixpoint checkEliminations (ps : JSMap.t Player) (count : Z)
  : JSMap.t Player * Z * list jsref :=
  match ps with
  | [] => ([], count, [])
  | (k, player) :: rest =>
      if isAlive player && (points player <=? -10) then
        let '(rest', count', elims) := checkEliminations rest (count + 1) in
        ((k, kill player) :: rest', count', PlayerRef k :: elims)
      else
        let '(rest', count', elims) := checkEliminations rest count in
        ((k, player) :: rest', count', elims)
  end.

(** The object [calculateRoundResults] returns on its ordinary path. *)
Record Results : Type := mkResults {
  res_numbers : JSMap.t float;
  res_average : float;
  res_target : float;
  res_winner : jsref;
  res_duplicates : list float;
  res_eliminations : list jsref;
  res_gameOver : bool
}.

(** The two shapes of the returned object. *)
Inductive RoundResult : Type :=
| SpecialResult (winner : jsref)
| NormalResult (r : Results).

Definition winner (r : RoundResult) : jsref :=
  match r with
  | SpecialResult w => w
  | NormalResult r => res_winner r
  end.

Definition gameOver (r : RoundResult) : bool :=
  match r with
  | SpecialResult _ => true
  | NormalResult r => res_gameOver r
  end.

(** [results.specialRule] read as a condition ([undefined] is falsy). *)
Definition isSpecial (r : RoundResult) : bool :=
  match r with
  | SpecialResult _ => true
  | NormalResult _ => false
  end.

(** [calculateRoundResults()]: the session after the call and the returned
    object, or [None] when the call raises a [TypeError] ([find] yielding
    [undefined], or [points] read from [undefined]). *)
Definition calculateRoundResults (g : DeathGame)
  : option (DeathGame * RoundResult) :=
  let numbers := JSMap.values (roundNumbers g) in
  let avg := average numbers in
  let tgt := target numbers in
  let dups := duplicates numbers in
  if specialRule g then
    match find100 (roundNumbers g) with
    | None => None
    | Some (winnerId, _) =>
        Some (g, SpecialResult (playerRef (players g) winnerId))
    end
  else
    let closestPlayer := fst (findWinner (players g) dups tgt (roundNumbers g)) in
    match applyPenalties closestPlayer tgt (players g) (roundNumbers g) with
    | None => None
    | Some ps1 =>
        let '(ps2, count, elims) := checkEliminations ps1 (eliminatedCount g) in
        Some ({| players := ps2; round := round g; eliminatedCount := count;
                 roundStartTime := roundStartTime g;
                 currentPhase := currentPhase g;
                 roundNumbers := roundNumbers g |},
              NormalResult
                {| res_numbers := roundNumbers g; res_average := avg;
                   res_target := tgt; res_winner := closestPlayer;
                   res_duplicates := dups; res_eliminations := elims;
                   res_gameOver := aliveCount ps2 <=? 1 |})
    end.

(** The timer callback of the [submitNumber] handler: [game.round++] and
    [game.startRound()]. *)
Definition nextRound (now : Z) (g : DeathGame) : DeathGame * RoundInfo :=
  startRound now
    {| players := players g; round := round g + 1;
       eliminatedCount := eliminatedCount g;
       roundStartTime := roundStartTime g; currentPhase := currentPhase g;
       roundNumbers := roundNumbers g |}.

(** ** Sequences of operations on a session *)

(** The calls a session receives: [startRound()] (at game start),
    the timer callback, [submitNumber] and [calculateRoundResults()]. *)
Inductive Op : Type :=
| OpStartRound (now : Z)
| OpNextRound (now : Z)
| OpSubmitNumber (playerId : string) (num : float)
| OpCalculateRoundResults.

Definition step (op : Op) (g : DeathGame) : option DeathGame :=
  match op with
  | OpStartRound now => Some (fst (startRound now g))
  | OpNextRound now => Some (fst (nextRound now g))
  | OpSubmitNumber playerId num => Some (fst (submitNumber g playerId num))
  | OpCalculateRoundResults => option_map fst (calculateRoundResults g)
  end.

Fixpoint run (ops : list Op) (g : DeathGame) : option DeathGame :=
  match ops with
  | [] => Some g
  | op :: ops' =>
      match step op g with
      | None => None
      | Some g' => run ops' g'
      end
  end.

Definition opensRound (op : Op) : bool :=
  match op with
  | OpStartRound _ | OpNextRound _ => true
  | _ => false
  end.

(** [run] with a history variable: the first component is the session as it
    was when its current round was opened (by the constructor, by
    [startRound] or by the timer callback). *)
Fixpoint runRound (ops : list Op) (g0 g : DeathGame)
  : option (DeathGame * DeathGame) :=
  match ops with
  | [] => Some (g0, g)
  | op :: ops' =>
      match step op g with
      | None => None
      | Some g' => runRound ops' (if opensRound op then g' else g0) g'
      end
  end.

(** The ids of the alive players, and the submissions' keys being among them. *)
Definition aliveIds (ps : JSMap.t Player) : list string :=
  JSMap.keys (filter (fun e => isAlive (snd e)) ps).

Definition submittersAlive (g : DeathGame) : Prop :=
  incl (JSMap.keys (roundNumbers g)) (aliveIds (players g)).

(** Every key of [roundNumbers] is a key of [players], and no key of
    [roundNumbers] occurs twice. *)
Definition knownSubmitters (g : DeathGame) : bool :=
  forallb (JSMap.has (players g)) (JSMap.keys (roundNumbers g)).

Definition wellFormed (g : DeathGame) : Prop :=
  JSMap.wf (roundNumbers g) /\ knownSubmitters g = true.

(** ** Notions the specification uses *)

(** How many submissions carry the value [v]. *)
Definition occurrences (numbers : list float) (v : float) : nat :=
  List.length (filter (fun y => Num.strictEq y v) numbers).

(** A duplicate value: submitted by two or more players. *)
Definition shared (numbers : list float) (v : float) : bool :=
  (2 <=? occurrences numbers v)%nat.

(** A submission may win unless its value is a duplicate while at most four
    players are alive. *)
Definition eligible (g : DeathGame) (v : float) : bool :=
  negb (shared (JSMap.values (roundNumbers g)) v
        && (aliveCount (players g) <=? 4)).

(** The absolute distance of a submitted value to the round's target. *)
Definition distance (g : DeathGame) (v : float) : float :=
  abs (v - target (JSMap.values (roundNumbers g)))%float.

(** A player the elimination check removes. *)
Definition toEliminate (p : Player) : bool :=
  isAlive p && (points p <=? -10).

(** The penalty of a losing submission when [alive] players are alive. *)
Definition penaltyAt (alive : Z) (tgt num : float) : Z :=
  if (alive =? 3) && Num.strictEq num tgt then -2 else -1.

(** What the penalty loop adds to the points of the player under [k]: one
    penalty for each submission stored under [k], unless that player is
    [closestPlayer]. *)
Fixpoint lossOf (alive : Z) (tgt : float) (closestPlayer : jsref)
  (entries : JSMap.t float) (k : string) : Z :=
  match entries with
  | [] => 0
  | e :: entries' =>
      (if String.eqb (fst e) k && negb (jsref_eqb (PlayerRef k) closestPlayer)
       then penaltyAt alive tgt (snd e) else 0)
      + lossOf alive tgt closestPlayer entries' k
  end.

(** The same for a [Map], which stores at most one submission per player. *)
Definition pointsChange (alive : Z) (tgt : float) (closestPlayer : jsref)
  (entries : JSMap.t float) (k : string) : Z :=
  match JSMap.get entries k with
  | None => 0
  | Some num =>
      if jsref_eqb (PlayerRef k) closestPlayer then 0
      else penaltyAt alive tgt num
  end.

(** The effect of the elimination loop on one player. *)
Definition eliminated (p : Player) : Player :=
  if toEliminate p then kill p else p.

(** Who is alive, key by key. *)
Definition lives (ps : JSMap.t Player) : list (string * bool) :=
  map (fun e => (fst e, isAlive (snd e))) ps.

(** *** The invariant of the winner loop *)

(** The test that makes the winner loop [continue]. *)
Definition skipped (ps : JSMap.t Player) (dups : list float)
  (e : string * float) : bool :=
  Num.includes dups (snd e) && (aliveCount ps <=? 4).

Definition distanceTo (tgt : float) (e : string * float) : float :=
  abs (snd e - tgt)%float.

(** After the entries [done]: no entry that was not skipped lies strictly
    closer than [closestDistance], and [closestPlayer] is [null] at distance
    [Infinity] or the submitter of such an entry at its distance. *)
Definition winnerInv (ps : JSMap.t Player) (dups : list float) (tgt : float)
  (done : JSMap.t float) (acc : jsref * float) : Prop :=
  (forall e, In e done -> skipped ps dups e = false ->
     (distanceTo tgt e <? snd acc)%float = false)
  /\ ((fst acc = Null /\ snd acc = infinity)
      \/ exists e, In e done /\ skipped ps dups e = false
           /\ fst acc = playerRef ps (fst e)
           /\ snd acc = distanceTo tgt e
           /\ (distanceTo tgt e <? infinity)%float = true).

(** The players a game is created on: each is [new Player(id, name)] under
    its id. *)
Definition newPlayers (ps : JSMap.t Player) : Prop :=
  Forall (fun e => exists n, snd e = newPlayer (fst e) n) ps.

(** Every alive player has more than -10 points. *)
Definition aboveFloor (ps : JSMap.t Player) : Prop :=
  Forall (fun p => isAlive p = true -> -10 < points p) (JSMap.values ps).

(** *** The invariant of a round *)

(** [g0] is the session as it was when the current round of [g] was opened:
    the submitters were alive then, nobody came back to life since, and the
    same players are alive as long as [eliminatedCount] has not moved. *)
Definition roundInv (g0 g : DeathGame) : Prop :=
  incl (JSMap.keys (roundNumbers g)) (aliveIds (players g0))
  /\ incl (aliveIds (players g)) (aliveIds (players g0))
  /\ eliminatedCount g0 <= eliminatedCount g
  /\ (eliminatedCount g = eliminatedCount g0 ->
      lives (players g) = lives (players g0)).

(** ** The room registry *)

Record Room : Type := mkRoom {
  host : string;
  room_players : JSMap.t Player
}.

(** The two global maps. *)
Record Server : Type := mkServer {
  games : JSMap.t DeathGame;
  waitingRooms : JSMap.t Room
}.

Definition emptyServer : Server :=
  {| games := JSMap.empty; waitingRooms := JSMap.empty |}.

(** The [createRoom] handler; [roomCode] is what [generateRoomCode()]
    returned. *)
Definition createRoom (socketId playerName roomCode : string) (srv : Server)
  : Server :=
  {| games := games srv;
     waitingRooms :=
       JSMap.set (waitingRooms srv) roomCode
         {| host := socketId;
            room_players := [(socketId, newPlayer socketId playerName)] |} |}.

(** What the [joinRoom] handler emits to the joining socket. *)
Inductive JoinReply : Type :=
| RoomNotFound
| RoomIsFull
| JoinedRoom (gameStart : option RoundInfo).

(** The [joinRoom] handler. *)
Definition joinRoom (socketId roomCode playerName : string) (now : Z)
  (srv : Server) : Server * JoinReply :=
  match JSMap.get (waitingRooms srv) roomCode with
  | None => (srv, RoomNotFound)
  | Some room =>
      if JSMap.size (room_players room) >=? 5 then (srv, RoomIsFull)
      else
        let ps := JSMap.set (room_players room) socketId
                    (newPlayer socketId playerName) in
        if JSMap.size ps =? 5 then
          let gi := startRound now (newDeathGame ps) in
          ({| games := JSMap.set (games srv) roomCode (fst gi);
              waitingRooms := JSMap.delete (waitingRooms srv) roomCode |},
           JoinedRoom (Some (snd gi)))
        else
          ({| games := games srv;
              waitingRooms :=
                JSMap.set (waitingRooms srv) roomCode
                  {| host := host room; room_players := ps |} |},
           JoinedRoom None)
  end.

(** One event of the server. The [submitNumber] and [disconnect] handlers
    and the timer callback touch [games] and the game objects only; they are
    covered by [step_game], which lets [games] change in any way. *)
Inductive serverStep : Server -> Server -> Prop :=
| step_createRoom (socketId playerName roomCode : string) (srv : Server) :
    serverStep srv (createRoom socketId playerName roomCode srv)
| step_joinRoom (socketId roomCode playerName : string) (now : Z)
    (srv : Server) :
    serverStep srv (fst (joinRoom socketId roomCode playerName now srv))
| step_game (srv : Server) (games' : JSMap.t DeathGame) :
    serverStep srv {| games := games'; waitingRooms := waitingRooms srv |}.

(** The states the server reaches from its start, one event at a time. *)
Inductive serverReachable : Server -> Prop :=
| reachable_start : serverReachable emptyServer
| reachable_step (srv srv' : Server) :
    serverReachable srv -> serverStep srv srv' -> serverReachable srv'.

(** Every waiting room holds between one and four players, all of them new. *)
Definition roomsBelowQuorum (srv : Server) : Prop :=
  JSMap.wf (waitingRooms srv)
  /\ forall roomCode room,
       JSMap.get (waitingRooms srv) roomCode = Some room ->
       1 <= JSMap.size (room_players room) <= 4
       /\ newPlayers (room_players room).

(** ** Scenarios *)

Module Scenario.

Local Open Scope string_scope.
Local Open Scope float_scope.

Definition five : JSMap.t Player :=
  [("a", newPlayer "a" "Ann"); ("b", newPlayer "b" "Bob");
   ("c", newPlayer "c" "Cid"); ("d", newPlayer "d" "Dee");
   ("e", newPlayer "e" "Eve")].

Definition submissions (l : list (string * float)) : list Op :=
  map (fun e => OpSubmitNumber (fst e) (snd e)) l.

(** Scenario A of the specification: five players, one duplicate value. *)
Definition opsA : list Op :=
  OpStartRound 0
  :: submissions [("a", 50); ("b", 50); ("c", 30); ("d", 70); ("e", 90)].

(** A round that [d] wins and a round that [e] wins, each followed by the
    timer callback. *)
Definition roundD : list Op :=
  submissions [("a", 0); ("b", 1); ("c", 2); ("d", 30); ("e", 100)]
  ++ [OpCalculateRoundResults].

Definition roundE : list Op :=
  submissions [("a", 0); ("b", 1); ("c", 2); ("d", 100); ("e", 30)]
  ++ [OpCalculateRoundResults].

Definition twoRounds : list Op :=
  roundD ++ [OpNextRound 0] ++ roundE ++ [OpNextRound 0].

(** Ten rounds in which [a], [b] and [c] lose every time: up to the last
    submission of the tenth round, and with the tenth resolution. *)
Definition tenthRoundOpen : list Op :=
  OpStartRound 0
  :: twoRounds ++ twoRounds ++ twoRounds ++ twoRounds ++ roundD
     ++ [OpNextRound 0]
     ++ submissions [("a", 0); ("b", 1); ("c", 2); ("d", 100); ("e", 30)].

Definition tenRounds : list Op := tenthRoundOpen ++ [OpCalculateRoundResults].

(** The eleventh round: the two survivors submit 0 and 100. *)
Definition finalRound : list Op :=
  tenRounds ++ [OpNextRound 0] ++ submissions [("d", 0); ("e", 100)].

(** Ten rounds that [c], [d] and [e] win in turn, so that [a] and [b] are
    eliminated by the tenth resolution, and the timer callback after it. *)
Definition roundOf (l : list (string * float)) : list Op :=
  submissions l ++ [OpCalculateRoundResults; OpNextRound 0].

Definition threeRounds : list Op :=
  roundOf [("a", 0); ("b", 1); ("c", 30); ("d", 100); ("e", 99)]
  ++ roundOf [("a", 0); ("b", 1); ("c", 100); ("d", 30); ("e", 99)]
  ++ roundOf [("a", 0); ("b", 1); ("c", 100); ("d", 99); ("e", 30)].

Definition threeLeft : list Op :=
  OpStartRound 0
  :: threeRounds ++ threeRounds ++ threeRounds
     ++ roundOf [("a", 0); ("b", 1); ("c", 30); ("d", 100); ("e", 99)].

(** The eleventh round, three players alive: all submit 0. *)
Definition opsZero : list Op :=
  threeLeft ++ submissions [("c", 0); ("d", 0); ("e", 0)].

(** The eleventh round, three players alive: [c] and [d] both on the target
    10 = (10 + 10 + 17.5) / 3 * 0.8. *)
Definition opsThree : list Op :=
  threeLeft ++ submissions [("c", 10); ("d", 10); ("e", 17.5)].

(** A room with four players. *)
Definition roomOfFour : Server :=
  fst (joinRoom "d" "ROOM01" "Dee" 0
    (fst (joinRoom "c" "ROOM01" "Cid" 0
      (fst (joinRoom "b" "ROOM01" "Bob" 0
        (createRoom "a" "Ann" "ROOM01" emptyServer)))))).

Definition play (ps : JSMap.t Player) (ops : list Op) : DeathGame :=
  match run ops (newDeathGame ps) with
  | Some g => g
  | None => newDeathGame ps
  end.

(** Five submissions whose sum overflows to [Infinity]. *)
Definition opsHuge : list Op :=
  OpStartRound 0
  :: submissions [("a", 0x1p1023); ("b", 0x1.1p1023); ("c", 0x1.2p1023);
                  ("d", 0x1.3p1023); ("e", 0x1.4p1023)].

Definition gA : DeathGame := Eval vm_compute in play five opsA.
Definition gHuge : DeathGame := Eval vm_compute in play five opsHuge.
Definition gNine : DeathGame := Eval vm_compute in play five tenthRoundOpen.
Definition gTen : DeathGame := Eval vm_compute in play five tenRounds.
Definition gFinal : DeathGame := Eval vm_compute in play five finalRound.
Definition gZero : DeathGame := Eval vm_compute in play five opsZero.
Definition gThree : DeathGame := Eval vm_compute in play five opsThree.

End Scenario.

(** ** The [submitNumber] handler *)

(** What the handler broadcasts to the room. *)
Inductive Emit : Type :=
| RoundResultsEvent (results : RoundResult)
| GameOverEvent (winner : jsref) (finalScores : list Player).

(** The [submitNumber] handler up to its return: the server after it, the
    events it emitted, in order, and whether it armed the ten-second timer.
    [None] when [calculateRoundResults] raised. *)
Definition submitNumberHandler (socketId roomCode : string) (num : float)
  (srv : Server) : option (Server * list Emit * bool) :=
  match JSMap.get (games srv) roomCode with
  | None => Some (srv, [], false)
  | Some game =>
      let '(game1, allSubmitted) := submitNumber game socketId num in
      if allSubmitted then
        match calculateRoundResults game1 with
        | None => None
        | Some (game2, results) =>
            if gameOver results then
              Some ({| games := JSMap.delete (games srv) roomCode;
                       waitingRooms := waitingRooms srv |},
                    [RoundResultsEvent results;
                     GameOverEvent (winner results)
                       (JSMap.values (players game2))],
                    false)
            else
              Some ({| games := JSMap.set (games srv) roomCode game2;
                       waitingRooms := waitingRooms srv |},
                    [RoundResultsEvent results], true)
        end
      else
        Some ({| games := JSMap.set (games srv) roomCode game1;
                 waitingRooms := waitingRooms srv |},
              [], false)
  end.

(** ** Further notions *)

(** The number of players with [isAlive] false. *)
Definition deadCount (ps : JSMap.t Player) : Z :=
  Z.of_nat (List.length (filter (fun p => negb (isAlive p)) (JSMap.values ps))).

(** A second invariant of the winner loop: [closestPlayer] is [null] while no
    entry that was not skipped lay below [Infinity]; otherwise it is the
    submitter of an entry [w], every earlier entry that was not skipped and
    has a distance other than NaN lies strictly farther than [w], and no
    later one lies strictly closer. *)
Definition firstInv (ps : JSMap.t Player) (dups : list float) (tgt : float)
  (done : JSMap.t float) (acc : jsref * float) : Prop :=
  (fst acc = Null /\ snd acc = infinity
   /\ forall e, In e done -> skipped ps dups e = false ->
        (distanceTo tgt e <? infinity)%float = false)
  \/ exists pre w post,
       done = pre ++ w :: post
       /\ skipped ps dups w = false
       /\ fst acc = playerRef ps (fst w)
       /\ snd acc = distanceTo tgt w
       /\ (forall e, In e pre -> skipped ps dups e = false ->
             is_nan (distanceTo tgt e) = false ->
             (distanceTo tgt w <? distanceTo tgt e)%float = true)
       /\ (forall e, In e post -> skipped ps dups e = false ->
             (distanceTo tgt e <? distanceTo tgt w)%float = false).

(** ** Further scenarios *)

Module Endgame.

Local Open Scope string_scope.
Local Open Scope float_scope.

(** After the ten rounds of [Scenario.tenRounds], [d] and [e] play on: [e]
    wins four rounds, and the fifth is open with both submissions in. *)
Definition duel : list Op :=
  Scenario.roundOf [("d", 90); ("e", 10)].

Definition lastRoundBegun : list Op :=
  Scenario.tenRounds ++ [OpNextRound 0] ++ duel ++ duel ++ duel ++ duel
  ++ Scenario.submissions [("d", 90)].

Definition lastRoundOpen : list Op :=
  lastRoundBegun ++ Scenario.submissions [("e", 10)].

Definition gLast : DeathGame :=
  Eval vm_compute in Scenario.play Scenario.five lastRoundOpen.


(** A server on which the game of room ROOM01 runs, all five players having
    joined, and the same server once four players have submitted. *)
Definition started : Server :=
  fst (joinRoom "e" "ROOM01" "Eve" 0 Scenario.roomOfFour).

Definition submitAll (l : list (string * float)) (srv : Server) : Server :=
  fold_left
    (fun srv e =>
       match submitNumberHandler (fst e) "ROOM01" (snd e) srv with
       | Some (srv', _, _) => srv'
       | None => srv
       end) l srv.

Definition fourSubmitted : Server :=
  Eval vm_compute in
    submitAll [("a", 50); ("b", 50); ("c", 30); ("d", 70)] started.

End Endgame.

(** * Properties *)

(** ** Facts on binary64 comparison *)

Module FloatFacts.

Ltac cmp_cases :=
  repeat match goal with
  | |- context [Pos.compare_cont Eq ?a ?b] =>
      change (Pos.compare_cont Eq a b) with (Pos.compare a b);
      destruct (Pos.compare_spec a b)
  | |- context [Z.compare ?a ?b] => destruct (Z.compare_spec a b)
  end.

Ltac by_cases x y :=
  destruct x as [[]|[]| |[] ? ?], y as [[]|[]| |[] ? ?];
  simpl; try congruence;
  cmp_cases; simpl; intros; subst; try congruence; try lia.

Lemma SFcompare_Lt_trans (x y z : spec_float) :
  SFcompare x y = Some Lt -> SFcompare y z = Some Lt -> SFcompare x z = Some Lt.
Proof.
  destruct z as [[]|[]| |[] mz ez]; by_cases x y.
Qed.

Lemma SFcompare_Eq_trans (x y z : spec_float) :
  SFcompare x y = Some Eq -> SFcompare y z = Some Eq -> SFcompare x z = Some Eq.
Proof.
  destruct z as [[]|[]| |[] mz ez]; by_cases x y.
Qed.

Lemma SFcompare_Eq_sym (x y : spec_float) :
  SFcompare x y = Some Eq -> SFcompare y x = Some Eq.
Proof. by_cases x y. Qed.

Lemma SFcompare_refl (x : spec_float) :
  SFcompare x x = None \/ SFcompare x x = Some Eq.
Proof.
  destruct x as [[]|[]| |[] m e]; simpl; auto;
  rewrite Z.compare_refl;
  change (Pos.compare_cont Eq m m) with (Pos.compare m m);
  rewrite Pos.compare_refl; auto.
Qed.

Lemma SFcompare_nan (x : spec_float) :
  SFcompare x x = None -> x = S754_nan.
Proof.
  destruct x as [[]|[]| |[] m e]; simpl; congruence.
Qed.

Local Open Scope float_scope.

Lemma eqb_true_iff (a b : float) :
  (a =? b) = true <-> SFcompare (Prim2SF a) (Prim2SF b) = Some Eq.
Proof.
  rewrite eqb_spec. unfold SFeqb.
  destruct (SFcompare (Prim2SF a) (Prim2SF b)) as [[]|]; split; congruence.
Qed.

Lemma ltb_true_iff (a b : float) :
  (a <? b) = true <-> SFcompare (Prim2SF a) (Prim2SF b) = Some Lt.
Proof.
  rewrite ltb_spec. unfold SFltb.
  destruct (SFcompare (Prim2SF a) (Prim2SF b)) as [[]|]; split; congruence.
Qed.

Lemma eqb_trans (a b c : float) :
  (a =? b) = true -> (b =? c) = true -> (a =? c) = true.
Proof. rewrite !eqb_true_iff. apply SFcompare_Eq_trans. Qed.

Lemma eqb_sym (a b : float) : (a =? b) = true -> (b =? a) = true.
Proof. rewrite !eqb_true_iff. apply SFcompare_Eq_sym. Qed.

Lemma eqb_refl_l (a b : float) : (a =? b) = true -> (a =? a) = true.
Proof.
  intros H. apply (eqb_trans a b a); [exact H | apply eqb_sym, H].
Qed.

Lemma ltb_trans (a b c : float) :
  (a <? b) = true -> (b <? c) = true -> (a <? c) = true.
Proof. rewrite !ltb_true_iff. apply SFcompare_Lt_trans. Qed.

Lemma ltb_irrefl (a : float) : (a <? a) = false.
Proof.
  rewrite ltb_spec. unfold SFltb.
  destruct (SFcompare_refl (Prim2SF a)) as [H|H]; rewrite H; reflexivity.
Qed.

Lemma is_nan_Prim2SF (a : float) : is_nan a = true -> Prim2SF a = S754_nan.
Proof.
  unfold is_nan. rewrite eqb_spec. unfold SFeqb. intros H.
  apply SFcompare_nan.
  destruct (SFcompare_refl (Prim2SF a)) as [E|E]; [exact E|].
  rewrite E in H. discriminate.
Qed.

(** A NaN submission lies at no distance that compares below another. *)
Lemma nan_distance (a t x : float) :
  is_nan a = true -> (abs (a - t) <? x) = false.
Proof.
  intros H. rewrite ltb_spec, abs_spec, sub_spec.
  rewrite (is_nan_Prim2SF a H). reflexivity.
Qed.

Lemma sameValueZero_eqb (a b : float) :
  is_nan b = false -> Num.sameValueZero a b = Num.strictEq a b.
Proof.
  intros H. unfold Num.sameValueZero, Num.strictEq.
  rewrite H, andb_false_r, orb_false_r. reflexivity.
Qed.

Lemma strictEq_sameValueZero (a b : float) :
  Num.strictEq a b = true -> Num.sameValueZero a b = true.
Proof.
  unfold Num.sameValueZero, Num.strictEq. intros ->. reflexivity.
Qed.

(** No number is [=== 0] and [=== 100] at once. *)
Lemma zero_not_100 (a b : float) :
  Num.strictEq a 0 = true -> Num.strictEq b Num.c100 = true ->
  Num.strictEq a b = false.
Proof.
  unfold Num.strictEq. intros Ha Hb.
  destruct (a =? b) eqn:E; [|reflexivity].
  assert (H : (0 =? Num.c100) = true).
  { apply (eqb_trans 0 a Num.c100); [apply eqb_sym, Ha|].
    apply (eqb_trans a b Num.c100); assumption. }
  vm_compute in H. discriminate.
Qed.

End FloatFacts.

(** ** Facts on [Map] *)

Module JSMapFacts.

Section Facts.

Context {V : Type}.
Implicit Types (m : JSMap.t V) (k : string) (v : V).

Lemma get_set_same m k v : JSMap.get (JSMap.set m k v) k = Some v.
Proof.
  induction m as [|[k' v'] m IH]; simpl.
  - rewrite String.eqb_refl. reflexivity.
  - destruct (String.eqb k' k) eqn:E; simpl; rewrite E; auto.
Qed.

Lemma get_set_other m k k' v :
  k <> k' -> JSMap.get (JSMap.set m k v) k' = JSMap.get m k'.
Proof.
  intros Hne. induction m as [|[k0 v0] m IH]; simpl.
  - apply String.eqb_neq in Hne. rewrite Hne. reflexivity.
  - destruct (String.eqb k0 k) eqn:E; simpl.
    + apply String.eqb_eq in E. subst.
      apply String.eqb_neq in Hne. rewrite Hne. reflexivity.
    + rewrite IH. reflexivity.
Qed.

Lemma get_In m k v : JSMap.get m k = Some v -> In (k, v) m.
Proof.
  induction m as [|[k' v'] m IH]; simpl; [discriminate|].
  destruct (String.eqb k' k) eqn:E.
  - apply String.eqb_eq in E. intros [= ->]. subst. auto.
  - auto.
Qed.

Lemma get_None_keys m k : JSMap.get m k = None -> ~ In k (JSMap.keys m).
Proof.
  induction m as [|[k' v'] m IH]; simpl; [tauto|].
  destruct (String.eqb k' k) eqn:E; [discriminate|].
  apply String.eqb_neq in E. intros H [Hk|Hk]; [congruence|]. exact (IH H Hk).
Qed.

Lemma In_keys_has m k : In k (JSMap.keys m) -> JSMap.has m k = true.
Proof.
  unfold JSMap.has. intros H.
  destruct (JSMap.get m k) eqn:E; [reflexivity|].
  destruct (get_None_keys _ _ E H).
Qed.

Lemma has_In_keys m k : JSMap.has m k = true -> In k (JSMap.keys m).
Proof.
  unfold JSMap.has. destruct (JSMap.get m k) eqn:E; [|discriminate].
  intros _. apply get_In in E. apply (in_map fst) in E. exact E.
Qed.

(** With no key twice, an entry is what [get] finds. *)
Lemma In_get m k v : JSMap.wf m -> In (k, v) m -> JSMap.get m k = Some v.
Proof.
  unfold JSMap.wf.
  induction m as [|[k' v'] m IH]; simpl; [tauto|].
  intros Hnd [H|H].
  - injection H as -> ->. rewrite String.eqb_refl. reflexivity.
  - inversion Hnd as [|? ? Hnot Hnd']; subst.
    destruct (String.eqb k' k) eqn:E.
    + apply String.eqb_eq in E. subst. destruct Hnot.
      apply (in_map fst) in H. exact H.
    + auto.
Qed.

Lemma keys_set_has m k v :
  JSMap.has m k = true -> JSMap.keys (JSMap.set m k v) = JSMap.keys m.
Proof.
  unfold JSMap.has.
  induction m as [|[k' v'] m IH]; simpl; [discriminate|].
  destruct (String.eqb k' k) eqn:E; simpl; [reflexivity|].
  intros H. rewrite (IH H). reflexivity.
Qed.

Lemma keys_set_new m k v :
  JSMap.has m k = false -> JSMap.keys (JSMap.set m k v) = JSMap.keys m ++ [k].
Proof.
  unfold JSMap.has.
  induction m as [|[k' v'] m IH]; simpl; [reflexivity|].
  destruct (String.eqb k' k) eqn:E; simpl; [discriminate|].
  intros H. rewrite (IH H). reflexivity.
Qed.

Lemma In_keys_set m k v k' :
  In k' (JSMap.keys (JSMap.set m k v)) <-> k' = k \/ In k' (JSMap.keys m).
Proof.
  destruct (JSMap.has m k) eqn:E.
  - rewrite keys_set_has by exact E. split; [auto|].
    intros [->|H]; [apply has_In_keys, E | exact H].
  - rewrite keys_set_new by exact E. rewrite in_app_iff. simpl.
    split; [intros [H|[H|[]]]; auto | intros [H|H]; auto].
Qed.

Lemma wf_set m k v : JSMap.wf m -> JSMap.wf (JSMap.set m k v).
Proof.
  unfold JSMap.wf. intros H.
  destruct (JSMap.has m k) eqn:E.
  - rewrite keys_set_has by exact E. exact H.
  - rewrite keys_set_new by exact E.
    apply NoDup_app; [exact H | repeat constructor; simpl; tauto |].
    intros x Hx [<-|[]].
    apply In_keys_has in Hx. congruence.
Qed.

Lemma size_set m k v :
  JSMap.size (JSMap.set m k v)
  = if JSMap.has m k then JSMap.size m else JSMap.size m + 1.
Proof.
  unfold JSMap.size.
  assert (H : List.length (JSMap.set m k v)
              = List.length (JSMap.keys (JSMap.set m k v))).
  { unfold JSMap.keys. rewrite length_map. reflexivity. }
  rewrite H.
  destruct (JSMap.has m k) eqn:E.
  - rewrite keys_set_has by exact E. unfold JSMap.keys.
    rewrite length_map. reflexivity.
  - rewrite keys_set_new by exact E. unfold JSMap.keys.
    rewrite length_app, length_map. simpl. lia.
Qed.

Lemma get_delete_other m k k' :
  k <> k' -> JSMap.get (JSMap.delete m k) k' = JSMap.get m k'.
Proof.
  intros Hne. induction m as [|[k0 v0] m IH]; simpl; [reflexivity|].
  destruct (String.eqb k0 k) eqn:E; simpl.
  - apply String.eqb_eq in E. subst.
    apply String.eqb_neq in Hne. rewrite Hne. reflexivity.
  - rewrite IH. reflexivity.
Qed.

Lemma In_keys_delete m k k' :
  In k' (JSMap.keys (JSMap.delete m k)) -> In k' (JSMap.keys m).
Proof.
  induction m as [|[k0 v0] m IH]; simpl; [tauto|].
  destruct (String.eqb k0 k); simpl; tauto.
Qed.

Lemma get_delete_same m k :
  JSMap.wf m -> JSMap.get (JSMap.delete m k) k = None.
Proof.
  unfold JSMap.wf.
  induction m as [|[k0 v0] m IH]; simpl; [reflexivity|].
  intros Hnd. inversion Hnd as [|? ? Hnot Hnd']; subst.
  destruct (String.eqb k0 k) eqn:E; simpl.
  - apply String.eqb_eq in E. subst.
    destruct (JSMap.get m k) eqn:G; [|reflexivity].
    destruct Hnot. apply get_In in G. apply (in_map fst) in G. exact G.
  - rewrite E. auto.
Qed.

Lemma wf_delete m k : JSMap.wf m -> JSMap.wf (JSMap.delete m k).
Proof.
  unfold JSMap.wf.
  induction m as [|[k0 v0] m IH]; simpl; [auto|].
  intros Hnd. inversion Hnd as [|? ? Hnot Hnd']; subst.
  destruct (String.eqb k0 k); simpl; [exact Hnd'|].
  constructor; [|auto].
  intros H. apply Hnot. apply (In_keys_delete _ _ _ H).
Qed.

End Facts.

End JSMapFacts.

(** ** The duplicate values *)

Module DuplicateFacts.

Import FloatFacts.

Lemma indexOfFrom_range (l : list float) (x : float) (i : Z) :
  Num.indexOfFrom l x i = -1
  \/ i <= Num.indexOfFrom l x i < i + Z.of_nat (List.length l).
Proof.
  revert i. induction l as [|y l IH]; intros i; simpl; [auto|].
  destruct (Num.strictEq y x).
  - right. lia.
  - destruct (IH (i + 1)) as [H|H]; [auto | right; lia].
Qed.

Lemma indexOfFrom_found (pre l : list float) (x : float) (i : Z) :
  existsb (fun y => Num.strictEq y x) pre = true ->
  i <= Num.indexOfFrom (pre ++ l) x i < i + Z.of_nat (List.length pre).
Proof.
  revert i. induction pre as [|y pre IH]; intros i; simpl; [discriminate|].
  destruct (Num.strictEq y x); simpl.
  - lia.
  - intros H. specialize (IH (i + 1) H). lia.
Qed.

Lemma indexOfFrom_skip (pre l : list float) (x : float) (i : Z) :
  existsb (fun y => Num.strictEq y x) pre = false ->
  Num.indexOfFrom (pre ++ l) x i
  = Num.indexOfFrom l x (i + Z.of_nat (List.length pre)).
Proof.
  revert i. induction pre as [|y pre IH]; intros i; simpl.
  - intros _. f_equal. lia.
  - destruct (Num.strictEq y x); simpl; [discriminate|].
    intros H. rewrite (IH (i + 1) H). f_equal. lia.
Qed.

(** The filter's test at position [length pre]: the value occurred before,
    or it is not [===] to itself. *)
Lemma indexOf_differs (pre rest : list float) (num : float) :
  negb (Num.indexOf (pre ++ num :: rest) num =? Z.of_nat (List.length pre))
  = existsb (fun y => Num.strictEq y num) pre || negb (Num.strictEq num num).
Proof.
  unfold Num.indexOf.
  destruct (existsb (fun y => Num.strictEq y num) pre) eqn:E; simpl.
  - pose proof (indexOfFrom_found pre (num :: rest) num 0 E) as H.
    apply negb_true_iff, Z.eqb_neq. lia.
  - rewrite (indexOfFrom_skip pre (num :: rest) num 0 E). simpl.
    destruct (Num.strictEq num num); simpl.
    + apply negb_false_iff, Z.eqb_eq. lia.
    + apply negb_true_iff, Z.eqb_neq.
      match goal with
      | |- context [Num.indexOfFrom rest num ?j] =>
          destruct (indexOfFrom_range rest num j); lia
      end.
Qed.

Lemma duplicatesFrom_cons (pre rest : list float) (num : float) :
  duplicatesFrom (pre ++ num :: rest) (num :: rest) (Z.of_nat (List.length pre))
  = (if existsb (fun y => Num.strictEq y num) pre || negb (Num.strictEq num num)
     then [num] else [])
    ++ duplicatesFrom ((pre ++ [num]) ++ rest) rest
         (Z.of_nat (List.length (pre ++ [num]))).
Proof.
  simpl. rewrite indexOf_differs.
  replace (Z.of_nat (List.length (pre ++ [num])))
    with (Z.of_nat (List.length pre) + 1)
    by (rewrite length_app; simpl; lia).
  rewrite <- app_assoc. simpl.
  destruct (existsb _ pre || negb _); reflexivity.
Qed.

Lemma occurrences_app (l1 l2 : list float) (v : float) :
  occurrences (l1 ++ l2) v = (occurrences l1 v + occurrences l2 v)%nat.
Proof. unfold occurrences. rewrite filter_app, length_app. reflexivity. Qed.

Lemma occurrences_cons (y : float) (l : list float) (v : float) :
  occurrences (y :: l) v
  = ((if Num.strictEq y v then 1 else 0) + occurrences l v)%nat.
Proof. unfold occurrences. simpl. destruct (Num.strictEq y v); reflexivity. Qed.

Lemma occurrences_pos (l : list float) (v : float) :
  (1 <= occurrences l v)%nat <-> existsb (fun y => Num.strictEq y v) l = true.
Proof.
  induction l as [|y l IH]; simpl.
  - unfold occurrences. simpl. split; [lia | discriminate].
  - rewrite occurrences_cons. destruct (Num.strictEq y v); simpl.
    + split; [reflexivity | lia].
    + exact IH.
Qed.

Lemma existsb_strictEq_trans (l : list float) (a b : float) :
  Num.strictEq a b = true ->
  existsb (fun y => Num.strictEq y a) l = true ->
  existsb (fun y => Num.strictEq y b) l = true.
Proof.
  intros Hab. rewrite !existsb_exists. intros [y [Hy Hya]].
  exists y. split; [exact Hy|]. exact (eqb_trans y a b Hya Hab).
Qed.

(** A value carried by two submissions is met by the duplicate list. *)
Lemma shared_includes_from (rest pre : list float) (v : float) :
  ((1 <= occurrences pre v)%nat /\ (1 <= occurrences rest v)%nat)
  \/ (2 <= occurrences rest v)%nat ->
  Num.includes
    (duplicatesFrom (pre ++ rest) rest (Z.of_nat (List.length pre))) v = true.
Proof.
  revert pre. induction rest as [|num rest IH]; intros pre H.
  - unfold occurrences in H. simpl in H. lia.
  - rewrite duplicatesFrom_cons. unfold Num.includes. rewrite existsb_app.
    fold (Num.includes
            (duplicatesFrom ((pre ++ [num]) ++ rest) rest
               (Z.of_nat (List.length (pre ++ [num])))) v).
    rewrite occurrences_cons in H.
    destruct (Num.strictEq num v) eqn:E.
    + destruct (existsb (fun y => Num.strictEq y num) pre) eqn:Ex.
      * simpl. rewrite (strictEq_sameValueZero _ _ E). reflexivity.
      * assert (Hpre : ~ (1 <= occurrences pre v)%nat).
        { rewrite occurrences_pos. intros Hv.
          apply (existsb_strictEq_trans pre v num) in Hv; [congruence|].
          apply eqb_sym, E. }
        rewrite IH; [apply orb_true_r|].
        left. rewrite occurrences_app, occurrences_cons, E. lia.
    + rewrite IH; [apply orb_true_r|].
      rewrite occurrences_app, occurrences_cons, E.
      unfold occurrences at 2. simpl. lia.
Qed.

Lemma shared_includes (numbers : list float) (v : float) :
  shared numbers v = true -> Num.includes (duplicates numbers) v = true.
Proof.
  unfold shared, duplicates. intros H. apply Nat.leb_le in H.
  apply (shared_includes_from numbers [] v). auto.
Qed.

(** Conversely, the duplicate list meets a value other than NaN only when two
    submissions carry it. *)
Lemma includes_shared_from (rest pre : list float) (v : float) :
  existsb (fun d => Num.strictEq d v)
    (duplicatesFrom (pre ++ rest) rest (Z.of_nat (List.length pre))) = true ->
  (2 <= occurrences (pre ++ rest) v)%nat.
Proof.
  revert pre. induction rest as [|num rest IH]; intros pre; [discriminate|].
  rewrite duplicatesFrom_cons, existsb_app. intros H.
  apply orb_true_iff in H. destruct H as [H|H].
  - destruct (existsb (fun y => Num.strictEq y num) pre
              || negb (Num.strictEq num num)) eqn:G; [|discriminate].
    simpl in H. rewrite orb_false_r in H.
    assert (Hnn : Num.strictEq num num = true) by exact (eqb_refl_l _ _ H).
    rewrite Hnn in G. simpl in G. rewrite orb_false_r in G.
    apply (existsb_strictEq_trans pre num v H) in G.
    apply occurrences_pos in G.
    rewrite occurrences_app, occurrences_cons, H. lia.
  - apply IH in H. rewrite <- app_assoc in H. exact H.
Qed.

Lemma includes_shared (numbers : list float) (v : float) :
  Num.includes (duplicates numbers) v = true -> is_nan v = false ->
  shared numbers v = true.
Proof.
  unfold shared, duplicates, Num.includes. intros H Hv. apply Nat.leb_le.
  apply (includes_shared_from numbers [] v). simpl.
  rewrite <- H. generalize (duplicatesFrom numbers numbers 0).
  induction l as [|d l IH]; simpl; [reflexivity|].
  rewrite IH, (sameValueZero_eqb d v Hv). reflexivity.
Qed.

End DuplicateFacts.

(** ** The three loops of [calculateRoundResults] *)

Module LoopFacts.

Import FloatFacts JSMapFacts.

#[local] Arguments jsref_eqb : simpl never.

(** *** The winner loop *)

Lemma winnerStep_inv ps dups tgt (done : JSMap.t float) acc e :
  winnerInv ps dups tgt done acc ->
  winnerInv ps dups tgt (done ++ [e]) (winnerStep ps dups tgt acc e).
Proof.
  intros [Hmin Hwho]. unfold winnerStep.
  fold (skipped ps dups e). fold (distanceTo tgt e).
  destruct (skipped ps dups e) eqn:Hskip.
  - split.
    + intros e' He' Hs'. apply in_app_iff in He'.
      destruct He' as [He'|[<-|[]]]; [auto | congruence].
    + destruct Hwho as [Hnull|[w [Hw Hrest]]]; [left; exact Hnull|].
      right. exists w. split; [apply in_app_iff; auto | exact Hrest].
  - destruct (distanceTo tgt e <? snd acc)%float eqn:Hlt;
      unfold winnerInv; simpl.
    + split.
      * intros e' He' Hs'. apply in_app_iff in He'.
        destruct He' as [He'|[<-|[]]]; [|apply ltb_irrefl].
        destruct (distanceTo tgt e' <? distanceTo tgt e)%float eqn:Hlt';
          [|reflexivity].
        rewrite <- (Hmin e' He' Hs'). symmetry.
        exact (ltb_trans _ _ _ Hlt' Hlt).
      * right. exists e. repeat split; auto.
        -- apply in_app_iff. simpl. auto.
        -- destruct Hwho as [[_ Hinf]|[w [_ [_ [_ [Hd Hfin]]]]]].
           ++ rewrite <- Hinf. exact Hlt.
           ++ rewrite Hd in Hlt. exact (ltb_trans _ _ _ Hlt Hfin).
    + split.
      * intros e' He' Hs'. apply in_app_iff in He'.
        destruct He' as [He'|[<-|[]]]; [auto | exact Hlt].
      * destruct Hwho as [Hnull|[w [Hw Hrest]]]; [left; exact Hnull|].
        right. exists w. split; [apply in_app_iff; auto | exact Hrest].
Qed.

Lemma fold_winnerStep_inv ps dups tgt (rest done : JSMap.t float) acc :
  winnerInv ps dups tgt done acc ->
  winnerInv ps dups tgt (done ++ rest)
    (fold_left (winnerStep ps dups tgt) rest acc).
Proof.
  revert done acc. induction rest as [|e rest IH]; intros done acc H; simpl.
  - rewrite app_nil_r. exact H.
  - replace (done ++ e :: rest) with ((done ++ [e]) ++ rest)
      by (rewrite <- app_assoc; reflexivity).
    apply IH, winnerStep_inv, H.
Qed.

Lemma findWinner_inv ps dups tgt (entries : JSMap.t float) :
  winnerInv ps dups tgt entries (findWinner ps dups tgt entries).
Proof.
  apply (fold_winnerStep_inv ps dups tgt entries []).
  split; [intros e []|]. left. split; reflexivity.
Qed.

(** When every entry is skipped the loop leaves [closestPlayer] at [null]. *)
Lemma findWinner_all_skipped ps dups tgt (entries : JSMap.t float) :
  (forall e, In e entries -> skipped ps dups e = true) ->
  findWinner ps dups tgt entries = (Null, infinity).
Proof.
  unfold findWinner. generalize (Null, infinity).
  induction entries as [|e entries IH]; intros acc H; simpl; [reflexivity|].
  rewrite IH by (intros e' He'; apply H; right; exact He').
  unfold winnerStep. fold (skipped ps dups e).
  rewrite (H e (or_introl eq_refl)). reflexivity.
Qed.

(** *** Who is alive *)

Lemma keys_lives (ps : JSMap.t Player) : map fst (lives ps) = JSMap.keys ps.
Proof.
  unfold lives, JSMap.keys. rewrite map_map. reflexivity.
Qed.

Lemma aliveCount_lives (ps : JSMap.t Player) :
  aliveCount ps
  = Z.of_nat (List.length (filter (fun x : string * bool => snd x) (lives ps))).
Proof.
  unfold aliveCount, alivePlayers, JSMap.values, lives. f_equal.
  induction ps as [|[k p] ps IH]; simpl; [reflexivity|].
  destruct (isAlive p); simpl; rewrite IH; reflexivity.
Qed.

Lemma aliveIds_lives (ps : JSMap.t Player) :
  aliveIds ps = map fst (filter (fun x : string * bool => snd x) (lives ps)).
Proof.
  unfold aliveIds, JSMap.keys, lives.
  induction ps as [|[k p] ps IH]; simpl; [reflexivity|].
  destruct (isAlive p); simpl; rewrite IH; reflexivity.
Qed.

Lemma has_lives (ps ps' : JSMap.t Player) (k : string) :
  lives ps' = lives ps -> JSMap.has ps' k = JSMap.has ps k.
Proof.
  intros H. apply (f_equal (map fst)) in H. rewrite !keys_lives in H.
  destruct (JSMap.has ps k) eqn:E.
  - apply In_keys_has. rewrite H. apply has_In_keys, E.
  - destruct (JSMap.has ps' k) eqn:E'; [|reflexivity].
    apply has_In_keys in E'. rewrite H in E'. apply In_keys_has in E'.
    congruence.
Qed.

Lemma lives_set (ps : JSMap.t Player) (k : string) (p p' : Player) :
  JSMap.get ps k = Some p -> isAlive p' = isAlive p ->
  lives (JSMap.set ps k p') = lives ps.
Proof.
  intros Hget Hal. induction ps as [|[k0 p0] ps IH]; simpl in *; [discriminate|].
  destruct (String.eqb k0 k) eqn:E; simpl.
  - injection Hget as ->. rewrite Hal. reflexivity.
  - rewrite (IH Hget). reflexivity.
Qed.

Lemma get_lives (ps ps' : JSMap.t Player) (k : string) (p : Player) :
  lives ps' = lives ps -> JSMap.get ps k = Some p ->
  exists p', JSMap.get ps' k = Some p' /\ isAlive p' = isAlive p.
Proof.
  revert ps'. induction ps as [|[k0 p0] ps IH]; intros ps' H; simpl;
    [discriminate|].
  destruct ps' as [|[k1 p1] ps']; simpl in H; [discriminate|].
  injection H as -> Hal Hrest. simpl.
  destruct (String.eqb k0 k).
  - intros [= <-]. exists p1. auto.
  - apply IH, Hrest.
Qed.

(** *** The penalty loop *)

Lemma penaltyOf_penaltyAt ps tgt num :
  penaltyOf ps tgt num = penaltyAt (aliveCount ps) tgt num.
Proof.
  unfold penaltyOf, penaltyAt.
  destruct ((aliveCount ps =? 3) && Num.strictEq num tgt); reflexivity.
Qed.

Lemma penaltyAt_cases alive tgt num :
  penaltyAt alive tgt num = -1 \/ penaltyAt alive tgt num = -2.
Proof.
  unfold penaltyAt. destruct ((alive =? 3) && Num.strictEq num tgt); auto.
Qed.

Lemma penaltyStep_spec c tgt ps e ps' :
  penaltyStep c tgt (Some ps) e = Some ps' ->
  lives ps' = lives ps
  /\ forall k p, JSMap.get ps k = Some p ->
       exists p', JSMap.get ps' k = Some p'
         /\ points p' = points p + lossOf (aliveCount ps) tgt c [e] k.
Proof.
  unfold penaltyStep, playerRef, JSMap.has. simpl.
  destruct (JSMap.get ps (fst e)) as [player|] eqn:Hget.
  - destruct (jsref_eqb (PlayerRef (fst e)) c) eqn:Hc.
    + intros [= <-]. split; [reflexivity|]. intros k p Hk.
      exists p. split; [exact Hk|].
      destruct (String.eqb (fst e) k) eqn:Ek; simpl; [|lia].
      apply String.eqb_eq in Ek. subst k. rewrite Hc. simpl. lia.
    + intros [= <-]. split; [apply (lives_set ps _ player); auto|].
      intros k p Hk.
      destruct (String.eqb (fst e) k) eqn:Ek; simpl.
      * apply String.eqb_eq in Ek. subst k. rewrite Hc. simpl.
        rewrite get_set_same. eexists. split; [reflexivity|].
        simpl. rewrite penaltyOf_penaltyAt.
        assert (player = p) by congruence. subst. lia.
      * apply String.eqb_neq in Ek. rewrite get_set_other by exact Ek.
        exists p. split; [exact Hk | lia].
  - destruct (jsref_eqb Undefined c) eqn:Hc; [|discriminate].
    intros [= <-]. split; [reflexivity|]. intros k p Hk.
    exists p. split; [exact Hk|].
    destruct (String.eqb (fst e) k) eqn:Ek; simpl; [|lia].
    apply String.eqb_eq in Ek. subst k. congruence.
Qed.

Lemma applyPenalties_None c tgt (entries : JSMap.t float) :
  fold_left (penaltyStep c tgt) entries None = None.
Proof. induction entries; simpl; auto. Qed.

Lemma applyPenalties_spec c tgt (entries : JSMap.t float) ps ps' :
  applyPenalties c tgt ps entries = Some ps' ->
  lives ps' = lives ps
  /\ forall k p, JSMap.get ps k = Some p ->
       exists p', JSMap.get ps' k = Some p'
         /\ points p' = points p + lossOf (aliveCount ps) tgt c entries k.
Proof.
  unfold applyPenalties. revert ps.
  induction entries as [|e entries IH]; intros ps; cbn [fold_left].
  - intros [= <-]. split; [reflexivity|]. intros k p Hk.
    exists p. split; [exact Hk | simpl; lia].
  - destruct (penaltyStep c tgt (Some ps) e) as [ps1|] eqn:Hstep;
      [|rewrite applyPenalties_None; discriminate].
    intros Hrest. apply penaltyStep_spec in Hstep.
    destruct Hstep as [Hl1 H1]. apply IH in Hrest.
    destruct Hrest as [Hl2 H2]. split; [congruence|].
    intros k p Hk. destruct (H1 k p Hk) as [p1 [Hk1 Hp1]].
    destruct (H2 k p1 Hk1) as [p' [Hk' Hp']].
    exists p'. split; [exact Hk'|].
    rewrite Hp', Hp1. cbn [lossOf].
    rewrite (aliveCount_lives ps1), Hl1, <- (aliveCount_lives ps). lia.
Qed.

(** The loop raises no [TypeError] when every submitter is a player. *)
Lemma applyPenalties_returns c tgt (entries : JSMap.t float) ps :
  forallb (JSMap.has ps) (JSMap.keys entries) = true ->
  exists ps', applyPenalties c tgt ps entries = Some ps'.
Proof.
  unfold applyPenalties. revert ps.
  induction entries as [|e entries IH]; intros ps; cbn [fold_left].
  - eauto.
  - simpl JSMap.keys. cbn [forallb].
    intros H. apply andb_true_iff in H. destruct H as [He Hrest].
    assert (Hstep : exists ps1, penaltyStep c tgt (Some ps) e = Some ps1).
    { unfold penaltyStep, playerRef. rewrite He. unfold JSMap.has in He.
      destruct (JSMap.get ps (fst e)); [|discriminate].
      destruct (jsref_eqb (PlayerRef (fst e)) c); eauto. }
    destruct Hstep as [ps1 Hstep]. rewrite Hstep.
    apply IH. pose proof (penaltyStep_spec _ _ _ _ _ Hstep) as [Hl _].
    rewrite forallb_forall in *. intros k Hk.
    rewrite (has_lives ps ps1 k Hl). apply Hrest, Hk.
Qed.

Lemma lossOf_nonpos alive tgt c (entries : JSMap.t float) k :
  lossOf alive tgt c entries k <= 0.
Proof.
  induction entries as [|e entries IH]; simpl; [lia|].
  destruct (String.eqb (fst e) k && negb (jsref_eqb (PlayerRef k) c));
    [destruct (penaltyAt_cases alive tgt (snd e))|]; lia.
Qed.

Lemma lossOf_absent alive tgt c (entries : JSMap.t float) k :
  ~ In k (JSMap.keys entries) -> lossOf alive tgt c entries k = 0.
Proof.
  induction entries as [|e entries IH]; simpl; [reflexivity|].
  intros H. rewrite IH by tauto.
  destruct (String.eqb (fst e) k) eqn:E; [|reflexivity].
  apply String.eqb_eq in E. tauto.
Qed.

(** In a [Map] the loop meets each player at most once. *)
Lemma lossOf_pointsChange alive tgt c (entries : JSMap.t float) k :
  JSMap.wf entries ->
  lossOf alive tgt c entries k = pointsChange alive tgt c entries k.
Proof.
  unfold JSMap.wf, pointsChange.
  induction entries as [|[k0 num] entries IH]; simpl; [reflexivity|].
  intros Hnd. inversion Hnd as [|? ? Hnot Hnd']; subst.
  destruct (String.eqb k0 k) eqn:E; simpl.
  - apply String.eqb_eq in E. subst k0.
    rewrite (lossOf_absent _ _ _ _ _ Hnot).
    destruct (jsref_eqb (PlayerRef k) c); simpl; lia.
  - rewrite (IH Hnd'). lia.
Qed.

(** *** The elimination loop *)

Lemma checkEliminations_spec (ps : JSMap.t Player) (count : Z) :
  checkEliminations ps count
  = (map (fun e => (fst e, eliminated (snd e))) ps,
     count + Z.of_nat (List.length (filter toEliminate (JSMap.values ps))),
     map PlayerRef (JSMap.keys (filter (fun e => toEliminate (snd e)) ps))).
Proof.
  revert count. induction ps as [|[k p] ps IH]; intros count.
  - simpl. f_equal. f_equal. lia.
  - cbn [checkEliminations]. fold (toEliminate p).
    unfold JSMap.values, JSMap.keys in *. cbn [map filter fst snd].
    unfold eliminated at 1.
    destruct (toEliminate p) eqn:E; rewrite IH;
      cbn [map List.length fst]; rewrite ?Nat2Z.inj_succ;
      first [reflexivity | f_equal; f_equal; lia].
Qed.

Lemma get_map_values {V W : Type} (f : V -> W) (m : JSMap.t V) (k : string) :
  JSMap.get (map (fun e => (fst e, f (snd e))) m) k
  = option_map f (JSMap.get m k).
Proof.
  induction m as [|[k0 v0] m IH]; simpl; [reflexivity|].
  destruct (String.eqb k0 k); [reflexivity | exact IH].
Qed.

Lemma eliminated_points (p : Player) : points (eliminated p) = points p.
Proof. unfold eliminated. destruct (toEliminate p); reflexivity. Qed.

Lemma eliminated_isAlive (p : Player) :
  isAlive (eliminated p) = isAlive p && negb (points p <=? -10).
Proof.
  unfold eliminated, toEliminate.
  destruct (isAlive p) eqn:Ea, (points p <=? -10); simpl; auto.
Qed.

End LoopFacts.

(** ** Round resolution *)

Module ResolutionFacts.

Import FloatFacts JSMapFacts DuplicateFacts LoopFacts.

#[local] Arguments jsref_eqb : simpl never.

(** The ordinary path of [calculateRoundResults], loop by loop. *)
Lemma calculateRoundResults_normal (g : DeathGame) :
  specialRule g = false -> knownSubmitters g = true ->
  let numbers := JSMap.values (roundNumbers g) in
  let closestPlayer :=
    fst (findWinner (players g) (duplicates numbers) (target numbers)
           (roundNumbers g)) in
  exists ps1,
    applyPenalties closestPlayer (target numbers) (players g) (roundNumbers g)
    = Some ps1
    /\ calculateRoundResults g
       = Some ({| players := map (fun e => (fst e, eliminated (snd e))) ps1;
                  round := round g;
                  eliminatedCount :=
                    eliminatedCount g
                    + Z.of_nat
                        (List.length (filter toEliminate (JSMap.values ps1)));
                  roundStartTime := roundStartTime g;
                  currentPhase := currentPhase g;
                  roundNumbers := roundNumbers g |},
               NormalResult
                 {| res_numbers := roundNumbers g;
                    res_average := average numbers;
                    res_target := target numbers;
                    res_winner := closestPlayer;
                    res_duplicates := duplicates numbers;
                    res_eliminations :=
                      map PlayerRef
                        (JSMap.keys
                           (filter (fun e => toEliminate (snd e)) ps1));
                    res_gameOver :=
                      aliveCount
                        (map (fun e => (fst e, eliminated (snd e))) ps1)
                      <=? 1 |}).
Proof.
  intros Hspecial Hknown numbers closestPlayer.
  destruct (applyPenalties_returns closestPlayer (target numbers)
              (roundNumbers g) (players g) Hknown) as [ps1 Hps1].
  exists ps1. split; [exact Hps1|].
  unfold calculateRoundResults. rewrite Hspecial.
  fold numbers. fold closestPlayer. rewrite Hps1.
  rewrite checkEliminations_spec. reflexivity.
Qed.

Lemma known_playerRef (g : DeathGame) (e : string * float) :
  knownSubmitters g = true -> In e (roundNumbers g) ->
  playerRef (players g) (fst e) = PlayerRef (fst e).
Proof.
  unfold knownSubmitters, playerRef. rewrite forallb_forall. intros H He.
  rewrite (H (fst e)); [reflexivity|]. apply in_map, He.
Qed.

(** The loop's test against the specification's notion of eligibility. *)
Lemma skipped_not_eligible (g : DeathGame) (e : string * float) :
  eligible g (snd e) = false ->
  skipped (players g) (duplicates (JSMap.values (roundNumbers g))) e = true.
Proof.
  unfold eligible, skipped. intros H. apply negb_false_iff in H.
  apply andb_true_iff in H. destruct H as [Hs Ha].
  rewrite (shared_includes _ _ Hs), Ha. reflexivity.
Qed.

Lemma eligible_not_skipped (g : DeathGame) (e : string * float) :
  skipped (players g) (duplicates (JSMap.values (roundNumbers g))) e = false ->
  eligible g (snd e) = true.
Proof.
  intros H. destruct (eligible g (snd e)) eqn:E; [reflexivity|].
  rewrite (skipped_not_eligible g e E) in H. discriminate.
Qed.

Lemma eligible_skipped_nan (g : DeathGame) (e : string * float) :
  eligible g (snd e) = true ->
  skipped (players g) (duplicates (JSMap.values (roundNumbers g))) e = true ->
  is_nan (snd e) = true.
Proof.
  unfold eligible, skipped. intros He Hs.
  apply andb_true_iff in Hs. destruct Hs as [Hi Ha].
  rewrite Ha, andb_true_r in He. apply negb_true_iff in He.
  destruct (is_nan (snd e)) eqn:Hn; [reflexivity|].
  rewrite (includes_shared _ _ Hi Hn) in He. discriminate.
Qed.

(** No eligible submission lies strictly closer than the distance the winner
    loop ends with. *)
Lemma findWinner_minimal (g : DeathGame) (e : string * float) :
  let numbers := JSMap.values (roundNumbers g) in
  In e (roundNumbers g) -> eligible g (snd e) = true ->
  (distance g (snd e)
   <? snd (findWinner (players g) (duplicates numbers) (target numbers)
             (roundNumbers g)))%float = false.
Proof.
  intros numbers He Hel.
  destruct (findWinner_inv (players g) (duplicates numbers) (target numbers)
              (roundNumbers g)) as [Hmin _].
  destruct (skipped (players g) (duplicates numbers) e) eqn:Hs.
  - apply nan_distance. exact (eligible_skipped_nan g e Hel Hs).
  - exact (Hmin e He Hs).
Qed.

Lemma same_key_same_entry {V : Type} (m : JSMap.t V) (k : string) (v v' : V) :
  JSMap.wf m -> In (k, v) m -> In (k, v') m -> v = v'.
Proof.
  intros Hwf H H'. apply (In_get m k v Hwf) in H.
  apply (In_get m k v' Hwf) in H'. congruence.
Qed.

(** What the players hold after the ordinary path: the penalty loop's points
    and the liveness the elimination loop decides from them. *)
Lemma resolution_players (g : DeathGame) :
  wellFormed g -> specialRule g = false ->
  exists g' r ps1,
    calculateRoundResults g = Some (g', NormalResult r)
    /\ applyPenalties (res_winner r) (res_target r) (players g) (roundNumbers g)
       = Some ps1
    /\ lives ps1 = lives (players g)
    /\ players g' = map (fun e => (fst e, eliminated (snd e))) ps1
    /\ eliminatedCount g'
       = eliminatedCount g
         + Z.of_nat (List.length (filter toEliminate (JSMap.values ps1)))
    /\ res_gameOver r = (aliveCount (players g') <=? 1)
    /\ res_target r = target (JSMap.values (roundNumbers g))
    /\ res_winner r
       = fst (findWinner (players g)
                (duplicates (JSMap.values (roundNumbers g)))
                (target (JSMap.values (roundNumbers g))) (roundNumbers g))
    /\ forall k p, JSMap.get (players g) k = Some p ->
         exists p1, JSMap.get ps1 k = Some p1
           /\ isAlive p1 = isAlive p
           /\ points p1
              = points p
                + pointsChange (aliveCount (players g)) (res_target r)
                    (res_winner r) (roundNumbers g) k.
Proof.
  intros [Hwf Hknown] Hspecial.
  destruct (calculateRoundResults_normal g Hspecial Hknown) as [ps1 [Hpen Hcalc]].
  eexists. eexists. exists ps1. split; [exact Hcalc|].
  cbn [res_winner res_target res_gameOver players eliminatedCount].
  destruct (applyPenalties_spec _ _ _ _ _ Hpen) as [Hl Hpts].
  repeat (split; [first [exact Hpen | exact Hl | reflexivity]|]).
  intros k p Hk. destruct (Hpts k p Hk) as [p1 [Hk1 Hp1]].
  destruct (get_lives _ _ _ _ Hl Hk) as [p1' [Hk1' Hal]].
  exists p1. split; [exact Hk1|]. split; [congruence|].
  rewrite Hp1. rewrite (lossOf_pointsChange _ _ _ _ _ Hwf). reflexivity.
Qed.

(** On the ordinary path the elimination check runs once, on the players as
    the whole penalty loop left them. *)
Lemma elimination_check_normal (g : DeathGame) :
  wellFormed g -> specialRule g = false ->
  exists g' r ps1,
    calculateRoundResults g = Some (g', NormalResult r)
    /\ applyPenalties (res_winner r) (target (JSMap.values (roundNumbers g)))
         (players g) (roundNumbers g) = Some ps1
    /\ (forall k p, JSMap.get (players g) k = Some p ->
          exists p1, JSMap.get ps1 k = Some p1 /\ isAlive p1 = isAlive p)
    /\ aliveCount ps1 = aliveCount (players g)
    /\ JSMap.keys (players g') = JSMap.keys ps1
    /\ (forall k p1, JSMap.get ps1 k = Some p1 ->
          exists p', JSMap.get (players g') k = Some p'
            /\ points p' = points p1
            /\ isAlive p' = isAlive p1 && negb (points p1 <=? -10))
    /\ eliminatedCount g'
       = eliminatedCount g
         + Z.of_nat
             (List.length
                (filter (fun p => isAlive p && (points p <=? -10))
                   (JSMap.values ps1)))
    /\ res_eliminations r
       = map PlayerRef
           (JSMap.keys
              (filter (fun e => isAlive (snd e) && (points (snd e) <=? -10))
                 ps1)).
Proof.
  intros Hwf Hspecial. destruct Hwf as [Hwf Hknown].
  destruct (calculateRoundResults_normal g Hspecial Hknown) as [ps1 [Hpen Hcalc]].
  eexists. eexists. exists ps1. split; [exact Hcalc|].
  cbn [res_winner res_target res_eliminations players eliminatedCount].
  destruct (applyPenalties_spec _ _ _ _ _ Hpen) as [Hl _].
  split; [exact Hpen|]. split; [|split; [|split; [|split; [|split]]]].
  - intros k p Hk. exact (get_lives _ _ _ _ Hl Hk).
  - rewrite !aliveCount_lives, Hl. reflexivity.
  - unfold JSMap.keys. rewrite map_map. reflexivity.
  - intros k p1 Hk1. exists (eliminated p1).
    rewrite get_map_values, Hk1. split; [reflexivity|].
    split; [apply eliminated_points | apply eliminated_isAlive].
  - reflexivity.
  - reflexivity.
Qed.

(** *** The two-player rule *)

Lemma includes_strictEq (l : list float) (x : float) :
  is_nan x = false ->
  Num.includes l x = existsb (fun y => Num.strictEq y x) l.
Proof.
  intros Hx. unfold Num.includes.
  induction l as [|y l IH]; simpl; [reflexivity|].
  rewrite IH, (sameValueZero_eqb y x Hx). reflexivity.
Qed.

(** [find] succeeds once [includes(100)] holds. *)
Lemma find100_includes (entries : JSMap.t float) :
  Num.includes (JSMap.values entries) Num.c100 = true ->
  exists e, find100 entries = Some e.
Proof.
  rewrite includes_strictEq by reflexivity.
  unfold find100, JSMap.values.
  induction entries as [|e entries IH]; simpl; [discriminate|].
  destruct (Num.strictEq (snd e) Num.c100); simpl; eauto.
Qed.

(** Two submissions with one shared value never are 0 and 100. *)
Lemma pair_shared_not_special (x y : float) :
  shared [x; y] x = true ->
  Num.includes [x; y] 0 && Num.includes [x; y] Num.c100 = false.
Proof.
  intros H. rewrite !includes_strictEq by reflexivity. cbn [existsb].
  rewrite !orb_false_r.
  assert (Hyx : Num.strictEq y x = true).
  { unfold shared in H. rewrite !occurrences_cons in H.
    destruct (Num.strictEq y x); [reflexivity|].
    destruct (Num.strictEq x x); discriminate. }
  assert (Hxy : Num.strictEq x y = true) by exact (eqb_sym _ _ Hyx).
  assert (Hxx : Num.strictEq x x = true) by exact (eqb_refl_l _ _ Hxy).
  assert (Hyy : Num.strictEq y y = true) by exact (eqb_refl_l _ _ Hyx).
  destruct (Num.strictEq x 0) eqn:X0, (Num.strictEq y 0) eqn:Y0,
    (Num.strictEq x Num.c100) eqn:X1, (Num.strictEq y Num.c100) eqn:Y1;
    try reflexivity; exfalso;
    repeat match goal with
    | A : Num.strictEq ?a 0 = true, B : Num.strictEq ?b Num.c100 = true |- _ =>
        pose proof (zero_not_100 a b A B); clear A
    end; congruence.
Qed.

(** At the moment a resolution is due (one submission per alive player), the
    rule does not fire when every submitted value is a duplicate. *)
Lemma all_shared_not_special (g : DeathGame) :
  JSMap.size (roundNumbers g) = aliveCount (players g) ->
  (forall v, In v (JSMap.values (roundNumbers g)) ->
     shared (JSMap.values (roundNumbers g)) v = true) ->
  specialRule g = false.
Proof.
  unfold specialRule, JSMap.size. intros Hsize Hshared.
  destruct (aliveCount (players g) =? 2) eqn:E; [|reflexivity].
  apply Z.eqb_eq in E. rewrite E in Hsize. cbn [andb].
  destruct (roundNumbers g) as [|[k1 x] [|[k2 y] [|e rest]]];
    simpl in Hsize; try lia.
  simpl JSMap.values in *. apply pair_shared_not_special.
  apply Hshared. simpl. auto.
Qed.

(** A resolution returns; when the two-player rule fires it returns its
    special result and the session as it was. *)
Lemma gameOver_iff_cases (g : DeathGame) :
  wellFormed g ->
  exists g' r,
    calculateRoundResults g = Some (g', r)
    /\ isSpecial r = specialRule g
    /\ (specialRule g = true -> g' = g).
Proof.
  intros [Hwf Hknown]. destruct (specialRule g) eqn:Hspecial.
  - pose proof Hspecial as H. unfold specialRule in H.
    apply andb_true_iff in H. destruct H as [_ H100].
    destruct (find100_includes _ H100) as [[k v] Hfind].
    exists g, (SpecialResult (playerRef (players g) k)).
    unfold calculateRoundResults. rewrite Hspecial, Hfind. auto.
  - destruct (calculateRoundResults_normal g Hspecial Hknown) as [ps1 [_ H]].
    eexists. eexists. split; [exact H|]. split; [reflexivity | discriminate].
Qed.

End ResolutionFacts.

(** ** The session over sequences of calls *)

Module SessionFacts.

Import JSMapFacts LoopFacts ResolutionFacts.

(** Every return of [calculateRoundResults]: the two-player rule with the
    session untouched, or the three loops. *)
Lemma calculateRoundResults_cases (g g' : DeathGame) (r : RoundResult) :
  calculateRoundResults g = Some (g', r) ->
  (specialRule g = true /\ g' = g /\ isSpecial r = true)
  \/ (specialRule g = false /\ isSpecial r = false
      /\ exists ps1,
           applyPenalties (winner r)
             (target (JSMap.values (roundNumbers g))) (players g)
             (roundNumbers g) = Some ps1
           /\ g' = {| players := map (fun e => (fst e, eliminated (snd e))) ps1;
                      round := round g;
                      eliminatedCount :=
                        eliminatedCount g
                        + Z.of_nat
                            (List.length
                               (filter toEliminate (JSMap.values ps1)));
                      roundStartTime := roundStartTime g;
                      currentPhase := currentPhase g;
                      roundNumbers := roundNumbers g |}).
Proof.
  unfold calculateRoundResults.
  destruct (specialRule g) eqn:Hspecial.
  - destruct (find100 (roundNumbers g)) as [[k v]|]; [|discriminate].
    intros [= <- <-]. left. auto.
  - destruct (applyPenalties _ _ (players g) (roundNumbers g)) as [ps1|] eqn:Hpen;
      [|discriminate].
    rewrite checkEliminations_spec. intros [= <- <-].
    right. split; [reflexivity|]. split; [reflexivity|].
    exists ps1. split; [exact Hpen | reflexivity].
Qed.

Lemma calculateRoundResults_frame (g g' : DeathGame) (r : RoundResult) :
  calculateRoundResults g = Some (g', r) ->
  currentPhase g' = currentPhase g /\ roundNumbers g' = roundNumbers g
  /\ round g' = round g.
Proof.
  intros H. apply calculateRoundResults_cases in H.
  destruct H as [[_ [-> _]]|[_ [_ [ps1 [_ ->]]]]]; simpl; auto.
Qed.

(** Points and liveness of one player across a resolution. *)
Lemma calculateRoundResults_player (g g' : DeathGame) (r : RoundResult)
  (k : string) (p : Player) :
  calculateRoundResults g = Some (g', r) ->
  JSMap.get (players g) k = Some p ->
  exists p', JSMap.get (players g') k = Some p'
    /\ points p' <= points p
    /\ (isAlive p' = true -> isAlive p = true).
Proof.
  intros H Hk. apply calculateRoundResults_cases in H.
  destruct H as [[_ [-> _]]|[_ [_ [ps1 [Hpen ->]]]]].
  - exists p. split; [exact Hk|]. split; [lia | auto].
  - destruct (applyPenalties_spec _ _ _ _ _ Hpen) as [Hl Hpts].
    destruct (Hpts k p Hk) as [p1 [Hk1 Hp1]].
    destruct (get_lives _ _ _ _ Hl Hk) as [p1' [Hk1' Hal]].
    assert (p1' = p1) by congruence. subst p1'.
    exists (eliminated p1). cbn [players]. rewrite get_map_values, Hk1.
    split; [reflexivity|]. rewrite eliminated_points, eliminated_isAlive, Hp1.
    split.
    + pose proof (lossOf_nonpos (aliveCount (players g))
                    (target (JSMap.values (roundNumbers g))) (winner r)
                    (roundNumbers g) k). lia.
    + rewrite Hal. intros H. apply andb_true_iff in H. tauto.
Qed.

Lemma submitNumber_players (g : DeathGame) (k : string) (num : float) :
  players (fst (submitNumber g k num)) = players g.
Proof.
  unfold submitNumber. destruct (currentPhase g); try reflexivity.
  destruct (JSMap.get (players g) k) as [p|]; [|reflexivity].
  destruct (isAlive p); reflexivity.
Qed.

(** One call never raises a player's points nor revives a player. *)
Lemma step_player (op : Op) (g g' : DeathGame) (k : string) (p : Player) :
  step op g = Some g' -> JSMap.get (players g) k = Some p ->
  exists p', JSMap.get (players g') k = Some p'
    /\ points p' <= points p
    /\ (isAlive p' = true -> isAlive p = true).
Proof.
  destruct op as [now|now|playerId num|]; simpl.
  - intros [= <-] Hk. exists p. simpl. split; [exact Hk|]. split; [lia|auto].
  - intros [= <-] Hk. exists p. simpl. split; [exact Hk|]. split; [lia|auto].
  - intros [= <-] Hk. exists p. rewrite submitNumber_players.
    split; [exact Hk|]. split; [lia|auto].
  - destruct (calculateRoundResults g) as [[g1 r]|] eqn:Hcalc; [|discriminate].
    intros [= <-] Hk. exact (calculateRoundResults_player g g1 r k p Hcalc Hk).
Qed.

Lemma get_aliveIds (ps : JSMap.t Player) (k : string) (p : Player) :
  JSMap.get ps k = Some p -> isAlive p = true -> In k (aliveIds ps).
Proof.
  unfold aliveIds, JSMap.keys.
  induction ps as [|[k0 p0] ps IH]; simpl; [discriminate|].
  destruct (String.eqb k0 k) eqn:E.
  - apply String.eqb_eq in E. subst k0. intros [= ->] Hal.
    rewrite Hal. simpl. auto.
  - intros Hk Hal. destruct (isAlive p0); simpl; auto.
Qed.

Lemma aliveIds_eliminated (ps : JSMap.t Player) :
  incl (aliveIds (map (fun e => (fst e, eliminated (snd e))) ps)) (aliveIds ps).
Proof.
  unfold aliveIds, JSMap.keys.
  induction ps as [|[k p] ps IH]; simpl; [apply incl_refl|].
  rewrite eliminated_isAlive.
  destruct (isAlive p); simpl.
  - destruct (points p <=? -10); simpl.
    + apply incl_tl, IH.
    + apply incl_cons; [simpl; auto | apply incl_tl, IH].
  - exact IH.
Qed.

Lemma nobody_eliminated (ps : JSMap.t Player) :
  List.length (filter toEliminate (JSMap.values ps)) = 0%nat ->
  map (fun e => (fst e, eliminated (snd e))) ps = ps.
Proof.
  unfold JSMap.values, eliminated.
  induction ps as [|[k p] ps IH]; simpl; [reflexivity|].
  destruct (toEliminate p); simpl; [discriminate|].
  intros H. rewrite (IH H). reflexivity.
Qed.

(** *** Well-formedness is kept, and no call raises *)

Lemma wellFormed_new (ps : JSMap.t Player) : wellFormed (newDeathGame ps).
Proof. split; [constructor | reflexivity]. Qed.

Lemma wellFormed_startRound (now : Z) (g : DeathGame) :
  wellFormed (fst (startRound now g)).
Proof. split; [constructor | reflexivity]. Qed.

Lemma wellFormed_submitNumber (g : DeathGame) (k : string) (num : float) :
  wellFormed g -> wellFormed (fst (submitNumber g k num)).
Proof.
  intros [Hwf Hknown]. unfold submitNumber.
  destruct (currentPhase g); try (split; assumption).
  destruct (JSMap.get (players g) k) as [p|] eqn:Hk; [|split; assumption].
  destruct (isAlive p); [|split; assumption].
  split; simpl; [apply wf_set, Hwf|].
  unfold knownSubmitters in *. simpl. rewrite forallb_forall in *.
  intros k' Hk'. apply In_keys_set in Hk'. destruct Hk' as [->|Hk'].
  - unfold JSMap.has. rewrite Hk. reflexivity.
  - apply Hknown, Hk'.
Qed.

Lemma wellFormed_calculateRoundResults (g g' : DeathGame) (r : RoundResult) :
  wellFormed g -> calculateRoundResults g = Some (g', r) -> wellFormed g'.
Proof.
  intros [Hwf Hknown] H. apply calculateRoundResults_cases in H.
  destruct H as [[_ [-> _]]|[_ [_ [ps1 [Hpen ->]]]]]; [split; assumption|].
  split; [exact Hwf|]. unfold knownSubmitters in *. cbn [players roundNumbers].
  rewrite forallb_forall in *. intros k Hk.
  destruct (applyPenalties_spec _ _ _ _ _ Hpen) as [Hl _].
  rewrite <- (Hknown k Hk), <- (has_lives _ _ k Hl).
  unfold JSMap.has. rewrite get_map_values.
  destruct (JSMap.get ps1 k); reflexivity.
Qed.

Lemma calculateRoundResults_returns (g : DeathGame) :
  wellFormed g -> exists g' r, calculateRoundResults g = Some (g', r).
Proof.
  intros [Hwf Hknown]. destruct (specialRule g) eqn:Hspecial.
  - pose proof Hspecial as H. unfold specialRule in H.
    apply andb_true_iff in H. destruct H as [_ H100].
    destruct (find100_includes _ H100) as [[k v] Hfind].
    unfold calculateRoundResults. rewrite Hspecial, Hfind. eauto.
  - destruct (calculateRoundResults_normal g Hspecial Hknown) as [ps1 [_ H]].
    eauto.
Qed.

Lemma step_wellFormed (op : Op) (g : DeathGame) :
  wellFormed g -> exists g', step op g = Some g' /\ wellFormed g'.
Proof.
  intros Hwf. destruct op as [now|now|playerId num|]; simpl.
  - eexists. split; [reflexivity | split; [constructor | reflexivity]].
  - eexists. split; [reflexivity | split; [constructor | reflexivity]].
  - exists (fst (submitNumber g playerId num)).
    split; [reflexivity | apply wellFormed_submitNumber, Hwf].
  - destruct (calculateRoundResults_returns g Hwf) as [g' [r H]].
    exists g'. rewrite H. split; [reflexivity|].
    exact (wellFormed_calculateRoundResults g g' r Hwf H).
Qed.

(** From a well-formed session every sequence of calls runs to its end, on
    well-formed sessions: [calculateRoundResults] raises no [TypeError]. *)
Lemma run_wellFormed (ops : list Op) (g : DeathGame) :
  wellFormed g -> exists g', run ops g = Some g' /\ wellFormed g'.
Proof.
  revert g. induction ops as [|op ops IH]; intros g Hwf; simpl.
  - eauto.
  - destruct (step_wellFormed op g Hwf) as [g1 [Hstep Hwf1]].
    rewrite Hstep. apply IH, Hwf1.
Qed.

Lemma runRound_run (ops : list Op) (g0 g g0' g' : DeathGame) :
  runRound ops g0 g = Some (g0', g') -> run ops g = Some g'.
Proof.
  revert g0 g. induction ops as [|op ops IH]; intros g0 g; simpl.
  - intros [= _ <-]. reflexivity.
  - destruct (step op g) as [g1|]; [|discriminate]. apply IH.
Qed.

End SessionFacts.

(** ** The submissions of a round *)

Module RoundFacts.

Import JSMapFacts LoopFacts SessionFacts.

Lemma roundInv_open (g : DeathGame) :
  roundNumbers g = JSMap.empty -> roundInv g g.
Proof.
  intros H. unfold roundInv. rewrite H.
  split; [intros k []|]. split; [apply incl_refl|]. split; [lia | auto].
Qed.

Lemma roundInv_submitNumber (g0 g : DeathGame) (k : string) (num : float) :
  roundInv g0 g -> roundInv g0 (fst (submitNumber g k num)).
Proof.
  intros Hinv. unfold submitNumber.
  destruct (currentPhase g); try exact Hinv.
  destruct (JSMap.get (players g) k) as [p|] eqn:Hk; [|exact Hinv].
  destruct (isAlive p) eqn:Hal; [|exact Hinv].
  destruct Hinv as [Hkeys [Halive Hcount]].
  split; [|split; [exact Halive | exact Hcount]].
  cbn [fst roundNumbers]. intros k' Hk'.
  apply In_keys_set in Hk'. destruct Hk' as [->|Hk'].
  - apply Halive. exact (get_aliveIds _ _ _ Hk Hal).
  - apply Hkeys, Hk'.
Qed.

Lemma roundInv_calculateRoundResults (g0 g g' : DeathGame) (r : RoundResult) :
  roundInv g0 g -> calculateRoundResults g = Some (g', r) -> roundInv g0 g'.
Proof.
  intros Hinv H. apply calculateRoundResults_cases in H.
  destruct H as [[_ [-> _]]|[_ [_ [ps1 [Hpen ->]]]]]; [exact Hinv|].
  destruct Hinv as [Hkeys [Halive [Hle Hsame]]].
  destruct (applyPenalties_spec _ _ _ _ _ Hpen) as [Hl _].
  assert (Hids : aliveIds ps1 = aliveIds (players g))
    by (rewrite !aliveIds_lives, Hl; reflexivity).
  unfold roundInv. cbn [players roundNumbers eliminatedCount].
  split; [exact Hkeys|]. split; [|split; [lia|]].
  - intros k Hk. apply Halive. rewrite <- Hids.
    exact (aliveIds_eliminated ps1 k Hk).
  - intros Heq. rewrite nobody_eliminated by lia.
    rewrite Hl. apply Hsame. lia.
Qed.

Lemma roundInv_step (op : Op) (g0 g g' : DeathGame) :
  roundInv g0 g -> step op g = Some g' ->
  roundInv (if opensRound op then g' else g0) g'.
Proof.
  intros Hinv. destruct op as [now|now|playerId num|]; simpl.
  - intros [= <-]. apply roundInv_open. reflexivity.
  - intros [= <-]. apply roundInv_open. reflexivity.
  - intros [= <-]. apply roundInv_submitNumber, Hinv.
  - destruct (calculateRoundResults g) as [[g1 r]|] eqn:Hcalc; [|discriminate].
    intros [= <-]. exact (roundInv_calculateRoundResults g0 g g1 r Hinv Hcalc).
Qed.

Lemma roundInv_runRound (ops : list Op) (g0 g g0' g' : DeathGame) :
  roundInv g0 g -> runRound ops g0 g = Some (g0', g') -> roundInv g0' g'.
Proof.
  revert g0 g. induction ops as [|op ops IH]; intros g0 g Hinv; simpl.
  - intros [= <- <-]. exact Hinv.
  - destruct (step op g) as [g1|] eqn:Hstep; [|discriminate].
    apply IH. exact (roundInv_step op g0 g g1 Hinv Hstep).
Qed.

End RoundFacts.

(** ** The room registry *)

Module RegistryFacts.

Import JSMapFacts.

Lemma newPlayers_set (ps : JSMap.t Player) (k n : string) :
  newPlayers ps -> newPlayers (JSMap.set ps k (newPlayer k n)).
Proof.
  unfold newPlayers. induction 1 as [|[k' p] ps Hp Hps IH]; simpl.
  - repeat constructor. exists n. reflexivity.
  - destruct (String.eqb k' k) eqn:E.
    + apply String.eqb_eq in E. subst k'.
      constructor; [exists n; reflexivity | assumption].
    + constructor; assumption.
Qed.

Lemma roomsBelowQuorum_createRoom (socketId playerName roomCode : string)
  (srv : Server) :
  roomsBelowQuorum srv ->
  roomsBelowQuorum (createRoom socketId playerName roomCode srv).
Proof.
  intros [Hwf Hsize]. split; simpl; [apply wf_set, Hwf|].
  intros code room. destruct (String.eqb roomCode code) eqn:E.
  - apply String.eqb_eq in E. subst code. rewrite get_set_same.
    intros [= <-]. unfold JSMap.size. simpl. split; [lia|].
    repeat constructor. exists playerName. reflexivity.
  - apply String.eqb_neq in E. rewrite get_set_other by exact E.
    apply Hsize.
Qed.

Lemma roomsBelowQuorum_joinRoom (socketId roomCode playerName : string)
  (now : Z) (srv : Server) :
  roomsBelowQuorum srv ->
  roomsBelowQuorum (fst (joinRoom socketId roomCode playerName now srv)).
Proof.
  intros [Hwf Hsize]. unfold joinRoom.
  destruct (JSMap.get (waitingRooms srv) roomCode) as [room|] eqn:Hroom;
    [|split; assumption].
  destruct (JSMap.size (room_players room) >=? 5); [split; assumption|].
  pose proof (Hsize roomCode room Hroom) as [Hroom4 Hnew].
  pose proof (size_set (room_players room) socketId
                (newPlayer socketId playerName)) as Hset.
  destruct (JSMap.size (JSMap.set (room_players room) socketId
                          (newPlayer socketId playerName)) =? 5) eqn:Hfive.
  - split; simpl; [apply wf_delete, Hwf|].
    intros code room'. destruct (String.eqb roomCode code) eqn:E.
    + apply String.eqb_eq in E. subst code.
      rewrite get_delete_same by exact Hwf. discriminate.
    + apply String.eqb_neq in E. rewrite get_delete_other by exact E.
      apply Hsize.
  - apply Z.eqb_neq in Hfive. split; simpl; [apply wf_set, Hwf|].
    intros code room'. destruct (String.eqb roomCode code) eqn:E.
    + apply String.eqb_eq in E. subst code. rewrite get_set_same.
      intros [= <-]. simpl. split; [|apply newPlayers_set, Hnew].
      destruct (JSMap.has (room_players room) socketId); lia.
    + apply String.eqb_neq in E. rewrite get_set_other by exact E.
      apply Hsize.
Qed.

Lemma roomsBelowQuorum_step (srv srv' : Server) :
  serverStep srv srv' -> roomsBelowQuorum srv -> roomsBelowQuorum srv'.
Proof.
  intros Hstep. destruct Hstep.
  - apply roomsBelowQuorum_createRoom.
  - apply roomsBelowQuorum_joinRoom.
  - intros H. exact H.
Qed.

Lemma roomsBelowQuorum_reachable (srv : Server) :
  serverReachable srv -> roomsBelowQuorum srv.
Proof.
  induction 1 as [|srv srv' _ IH Hstep].
  - split; [constructor | intros code room; discriminate].
  - exact (roomsBelowQuorum_step srv srv' Hstep IH).
Qed.

End RegistryFacts.

(** ** Alive players stay above the elimination threshold *)

Module FloorFacts.

Import LoopFacts SessionFacts.

Lemma aboveFloor_new (ps : JSMap.t Player) : newPlayers ps -> aboveFloor ps.
Proof.
  unfold newPlayers, aboveFloor, JSMap.values. intros H.
  apply Forall_map. revert H. apply Forall_impl.
  intros e [n ->] _. simpl. lia.
Qed.

Lemma aboveFloor_eliminated (ps : JSMap.t Player) :
  aboveFloor (map (fun e => (fst e, eliminated (snd e))) ps).
Proof.
  unfold aboveFloor, JSMap.values. rewrite map_map. apply Forall_map.
  apply Forall_forall. intros e _. cbn [snd].
  rewrite eliminated_points, eliminated_isAlive. intros H.
  apply andb_true_iff in H. destruct H as [_ H].
  apply negb_true_iff, Z.leb_gt in H. lia.
Qed.

Lemma aboveFloor_step (op : Op) (g g' : DeathGame) :
  aboveFloor (players g) -> step op g = Some g' -> aboveFloor (players g').
Proof.
  intros Hfloor. destruct op as [now|now|playerId num|]; simpl.
  - intros [= <-]. exact Hfloor.
  - intros [= <-]. exact Hfloor.
  - intros [= <-]. rewrite submitNumber_players. exact Hfloor.
  - destruct (calculateRoundResults g) as [[g1 r]|] eqn:Hcalc; [|discriminate].
    intros [= <-]. apply calculateRoundResults_cases in Hcalc.
    destruct Hcalc as [[_ [-> _]]|[_ [_ [ps1 [_ ->]]]]]; [exact Hfloor|].
    apply aboveFloor_eliminated.
Qed.

Lemma aboveFloor_run (ops : list Op) (g g' : DeathGame) :
  aboveFloor (players g) -> run ops g = Some g' -> aboveFloor (players g').
Proof.
  revert g. induction ops as [|op ops IH]; intros g Hfloor; simpl.
  - intros [= <-]. exact Hfloor.
  - destruct (step op g) as [g1|] eqn:Hstep; [|discriminate].
    apply IH. exact (aboveFloor_step op g g1 Hfloor Hstep).
Qed.

Lemma aboveFloor_nobody (ps : JSMap.t Player) :
  aboveFloor ps -> filter toEliminate (JSMap.values ps) = [].
Proof.
  unfold aboveFloor. generalize (JSMap.values ps). intros l H.
  induction H as [|p l Hp _ IH]; simpl; [reflexivity|].
  unfold toEliminate at 1. destruct (isAlive p); simpl; [|exact IH].
  specialize (Hp eq_refl). apply Z.leb_gt in Hp. rewrite Hp. exact IH.
Qed.

Lemma filter_entries_values (f : Player -> bool) (ps : JSMap.t Player) :
  filter f (JSMap.values ps) = [] -> filter (fun e => f (snd e)) ps = [].
Proof.
  unfold JSMap.values.
  induction ps as [|[k p] ps IH]; simpl; [reflexivity|].
  destruct (f p); [discriminate | exact IH].
Qed.

End FloorFacts.

(** ** The scenarios *)

Module ScenarioFacts.

Import Scenario SessionFacts.

Lemma run_play (ps : JSMap.t Player) (ops : list Op) :
  run ops (newDeathGame ps) = Some (play ps ops)
  /\ wellFormed (play ps ops).
Proof.
  unfold play.
  destruct (run_wellFormed ops (newDeathGame ps) (wellFormed_new ps))
    as [g [Hrun Hwf]].
  rewrite Hrun. auto.
Qed.

Lemma gA_reached : run opsA (newDeathGame five) = Some gA /\ wellFormed gA.
Proof. exact (run_play five opsA). Qed.

Lemma gNine_reached :
  run tenthRoundOpen (newDeathGame five) = Some gNine /\ wellFormed gNine.
Proof. exact (run_play five tenthRoundOpen). Qed.

Lemma gTen_reached :
  run tenRounds (newDeathGame five) = Some gTen /\ wellFormed gTen.
Proof. exact (run_play five tenRounds). Qed.

Lemma gFinal_reached :
  run finalRound (newDeathGame five) = Some gFinal /\ wellFormed gFinal.
Proof. exact (run_play five finalRound). Qed.

Lemma gZero_reached :
  run opsZero (newDeathGame five) = Some gZero /\ wellFormed gZero.
Proof. exact (run_play five opsZero). Qed.

Lemma gThree_reached :
  run opsThree (newDeathGame five) = Some gThree /\ wellFormed gThree.
Proof. exact (run_play five opsThree). Qed.

Lemma roomOfFour_reachable : serverReachable roomOfFour.
Proof.
  unfold roomOfFour.
  repeat (eapply reachable_step; [|apply step_joinRoom]).
  eapply reachable_step; [apply reachable_start | apply step_createRoom].
Qed.

(** Scenario A: target 46.400000000000006, and the first submitter of 50
    wins although 50 is a duplicate, five players being alive. *)
Example scenarioA :
  exists g' r,
    calculateRoundResults gA = Some (g', NormalResult r)
    /\ res_average r = 58%float
    /\ res_target r = 0x1.7333333333334p+5%float
    /\ res_duplicates r = [50%float]
    /\ res_winner r = PlayerRef "a"
    /\ res_gameOver r = false.
Proof. eexists. eexists. vm_compute. repeat split. Qed.

Lemma newPlayers_five : newPlayers five.
Proof. repeat constructor; eexists; reflexivity. Qed.

(** The tenth resolution of the scenario eliminates [a], [b] and [c] at
    once, each at -10 points. *)
Example tenth_resolution :
  exists r,
    calculateRoundResults gNine = Some (gTen, NormalResult r)
    /\ res_eliminations r = [PlayerRef "a"; PlayerRef "b"; PlayerRef "c"]
    /\ eliminatedCount gNine = 0
    /\ eliminatedCount gTen = 3
    /\ res_gameOver r = false.
Proof. eexists. vm_compute. repeat split. Qed.

(** When the sum of the submissions overflows, the target and every distance
    are [Infinity], nothing compares below the initial [closestDistance] and
    nobody wins. *)
Example overflow_no_winner :
  exists g' r,
    calculateRoundResults gHuge = Some (g', NormalResult r)
    /\ res_target r = infinity
    /\ res_duplicates r = []
    /\ res_winner r = Null.
Proof. eexists. eexists. vm_compute. repeat split. Qed.

End ScenarioFacts.

(** * The claims of the specification *)

Import FloatFacts JSMapFacts DuplicateFacts LoopFacts ResolutionFacts.
Import SessionFacts RoundFacts FloorFacts RegistryFacts ScenarioFacts.

#[local] Arguments jsref_eqb : simpl never.

(** C1 (as the code has it). Unless the two-player rule fires, the target
    of a resolution is the average times 0.8; a submission that is not
    eligible (its value is shared by two or more submissions while at most
    four players are alive) does not win; the winner is the submitter of an
    eligible submission than which no eligible submission lies strictly
    closer to the target; and there is a winner as soon as an eligible
    submission lies at a finite distance. With more than four players alive
    every submission is eligible. Every session reached from a new game is
    [wellFormed] ([SessionFacts.run_wellFormed]). *)
Theorem winner_selection (g : DeathGame) :
  wellFormed g -> specialRule g = false ->
  exists g' r,
    calculateRoundResults g = Some (g', NormalResult r)
    /\ res_target r = (res_average r * Num.c0_8)%float
    /\ (forall k v, In (k, v) (roundNumbers g) -> eligible g v = false ->
          res_winner r <> PlayerRef k)
    /\ (forall k, res_winner r = PlayerRef k ->
          exists v, In (k, v) (roundNumbers g) /\ eligible g v = true
            /\ forall k' v', In (k', v') (roundNumbers g) ->
                 eligible g v' = true ->
                 (distance g v' <? distance g v)%float = false)
    /\ ((exists k v, In (k, v) (roundNumbers g) /\ eligible g v = true
           /\ (distance g v <? infinity)%float = true) ->
        exists k, res_winner r = PlayerRef k)
    /\ (4 < aliveCount (players g) -> forall v, eligible g v = true).
Proof.
  intros [Hwf Hknown] Hspecial.
  destruct (calculateRoundResults_normal g Hspecial Hknown) as [ps1 [_ Hcalc]].
  eexists. eexists. split; [exact Hcalc|]. cbn [res_target res_average res_winner].
  pose proof (findWinner_inv (players g)
                (duplicates (JSMap.values (roundNumbers g)))
                (target (JSMap.values (roundNumbers g)))
                (roundNumbers g)) as [Hmin Hwho].
  split; [reflexivity|]. split; [|split; [|split]].
  - intros k v Hin Hel Hwin.
    destruct Hwho as [[Hnull _]|[w [Hw [Hs [Hc _]]]]]; [congruence|].
    rewrite (known_playerRef g w Hknown Hw) in Hc.
    rewrite Hc in Hwin. injection Hwin as Hk.
    destruct w as [kw vw]. simpl in Hk. subst kw.
    rewrite (same_key_same_entry _ _ _ _ Hwf Hin Hw) in Hel.
    rewrite (skipped_not_eligible g (k, vw) Hel) in Hs. discriminate.
  - intros k Hwin.
    destruct Hwho as [[Hnull _]|[w [Hw [Hs [Hc [Hd _]]]]]]; [congruence|].
    rewrite (known_playerRef g w Hknown Hw) in Hc.
    rewrite Hc in Hwin. injection Hwin as Hk.
    destruct w as [kw vw]. simpl in Hk. subst kw.
    exists vw. split; [exact Hw|].
    split; [exact (eligible_not_skipped g (k, vw) Hs)|].
    intros k' v' Hin' Hel'.
    pose proof (findWinner_minimal g (k', v') Hin' Hel') as Hle.
    cbv zeta in Hle. rewrite Hd in Hle. exact Hle.
  - intros [k [v [Hin [Hel Hfin]]]].
    destruct Hwho as [[_ Hinf]|[w [Hw [_ [Hc _]]]]].
    + pose proof (findWinner_minimal g (k, v) Hin Hel) as Hle.
      cbv zeta in Hle. rewrite Hinf in Hle. cbn [snd] in Hle. congruence.
    + exists (fst w). rewrite Hc. exact (known_playerRef g w Hknown Hw).
  - intros Halive v. unfold eligible.
    replace (aliveCount (players g) <=? 4) with false
      by (symmetry; apply Z.leb_gt; lia).
    rewrite andb_false_r. reflexivity.
Qed.

(** [winner_selection] at scenario A, where the first submitter of the
    duplicate 50 wins among five alive players. *)
Lemma winner_selection_witness :
  let g := Scenario.gA in
  wellFormed g /\ specialRule g = false
  /\ exists g' r,
       calculateRoundResults g = Some (g', NormalResult r)
       /\ res_target r = (res_average r * Num.c0_8)%float
       /\ (forall k v, In (k, v) (roundNumbers g) -> eligible g v = false ->
             res_winner r <> PlayerRef k)
       /\ (forall k, res_winner r = PlayerRef k ->
             exists v, In (k, v) (roundNumbers g) /\ eligible g v = true
               /\ forall k' v', In (k', v') (roundNumbers g) ->
                    eligible g v' = true ->
                    (distance g v' <? distance g v)%float = false)
       /\ ((exists k v, In (k, v) (roundNumbers g) /\ eligible g v = true
              /\ (distance g v <? infinity)%float = true) ->
           exists k, res_winner r = PlayerRef k)
       /\ (4 < aliveCount (players g) -> forall v, eligible g v = true).
Proof.
  intros g. pose proof (proj2 gA_reached) as Hwf.
  split; [exact Hwf|]. split; [reflexivity|].
  exact (winner_selection g Hwf eq_refl).
Defined.

(** C1, the claim against the code: in [Scenario.gFinal] both submissions are
    eligible and 0 lies strictly closer to the target 40 than 100, yet the
    resolution returns the submitter of 100 as winner. *)
Lemma winner_selection_counterexample :
  run Scenario.finalRound (newDeathGame Scenario.five) = Some Scenario.gFinal
  /\ roundNumbers Scenario.gFinal
     = [("d"%string, 0%float); ("e"%string, 100%float)]
  /\ target (JSMap.values (roundNumbers Scenario.gFinal)) = 40%float
  /\ eligible Scenario.gFinal 0 = true
  /\ eligible Scenario.gFinal 100 = true
  /\ (distance Scenario.gFinal 0 <? distance Scenario.gFinal 100)%float = true
  /\ option_map (fun x => winner (snd x))
       (calculateRoundResults Scenario.gFinal) = Some (PlayerRef "e").
Proof.
  split; [exact (proj1 gFinal_reached)|]. vm_compute. repeat split.
Qed.

(** C2. With exactly two players alive and the two submissions [=== 0] and
    [=== 100] (in either order of submission), the resolution returns the
    submitter of 100 as winner with [gameOver] and [specialRule] true, and
    leaves the session as it was: no points change and nobody is eliminated. *)
Theorem sudden_death (g : DeathGame) (k0 k100 : string) (x y : float) :
  aliveCount (players g) = 2 ->
  roundNumbers g = [(k0, x); (k100, y)]
  \/ roundNumbers g = [(k100, y); (k0, x)] ->
  Num.strictEq x 0 = true -> Num.strictEq y Num.c100 = true ->
  JSMap.has (players g) k100 = true ->
  exists r,
    calculateRoundResults g = Some (g, r)
    /\ winner r = PlayerRef k100
    /\ gameOver r = true
    /\ isSpecial r = true.
Proof.
  intros Halive Hsub Hx Hy Hknown.
  exists (SpecialResult (PlayerRef k100)).
  split; [|repeat split; reflexivity].
  assert (Hx100 : Num.strictEq x Num.c100 = false).
  { destruct (Num.strictEq x Num.c100) eqn:E; [|reflexivity].
    pose proof (zero_not_100 x x Hx E) as H.
    rewrite (eqb_refl_l _ _ Hx : Num.strictEq x x = true) in H. discriminate. }
  unfold calculateRoundResults, specialRule, find100, playerRef.
  apply Z.eqb_eq in Halive. rewrite Halive.
  rewrite !includes_strictEq by reflexivity.
  destruct Hsub as [-> | ->]; simpl; rewrite Hx, Hy, ?Hx100, ?orb_true_r;
    simpl; rewrite Hknown; reflexivity.
Qed.

(** [sudden_death] at the eleventh round of the scenario: [d] submits 0 and
    [e] submits 100. *)
Lemma sudden_death_witness :
  let g := Scenario.gFinal in
  aliveCount (players g) = 2
  /\ roundNumbers g = [("d"%string, 0%float); ("e"%string, 100%float)]
  /\ Num.strictEq 0 0 = true /\ Num.strictEq 100 Num.c100 = true
  /\ JSMap.has (players g) "e" = true
  /\ exists r,
       calculateRoundResults g = Some (g, r)
       /\ winner r = PlayerRef "e" /\ gameOver r = true /\ isSpecial r = true.
Proof.
  intros g. repeat (split; [reflexivity|]).
  exact (sudden_death g "d" "e" 0 100 eq_refl (or_introl eq_refl)
           eq_refl eq_refl eq_refl).
Defined.

(** C3. In every resolution of a session that was created on new players,
    the elimination is decided once, on the players as the penalty pass left
    them ([ps1]; the pass is skipped when the two-player rule fires): the
    penalty pass changes nobody's [isAlive]; then exactly the players that
    are alive with at most -10 points are marked not alive, in that same
    call, [eliminatedCount] grows by their number and, on the ordinary path,
    they are the reported eliminations. *)
Theorem elimination_check (ps : JSMap.t Player) (ops : list Op)
  (g : DeathGame) :
  newPlayers ps -> run ops (newDeathGame ps) = Some g ->
  exists g' r ps1,
    calculateRoundResults g = Some (g', r)
    /\ (if specialRule g then Some (players g)
        else applyPenalties (winner r)
               (target (JSMap.values (roundNumbers g))) (players g)
               (roundNumbers g)) = Some ps1
    /\ (forall k p, JSMap.get (players g) k = Some p ->
          exists p1, JSMap.get ps1 k = Some p1 /\ isAlive p1 = isAlive p)
    /\ aliveCount ps1 = aliveCount (players g)
    /\ JSMap.keys (players g') = JSMap.keys ps1
    /\ (forall k p1, JSMap.get ps1 k = Some p1 ->
          exists p', JSMap.get (players g') k = Some p'
            /\ points p' = points p1
            /\ isAlive p' = isAlive p1 && negb (points p1 <=? -10))
    /\ eliminatedCount g'
       = eliminatedCount g
         + Z.of_nat
             (List.length
                (filter (fun p => isAlive p && (points p <=? -10))
                   (JSMap.values ps1)))
    /\ (forall r', r = NormalResult r' ->
          res_eliminations r'
          = map PlayerRef
              (JSMap.keys
                 (filter (fun e => isAlive (snd e) && (points (snd e) <=? -10))
                    ps1))).
Proof.
  intros Hnew Hrun.
  destruct (run_wellFormed ops (newDeathGame ps) (wellFormed_new ps))
    as [g1 [Hrun1 Hwf]].
  rewrite Hrun in Hrun1. injection Hrun1 as <-.
  pose proof (aboveFloor_run ops (newDeathGame ps) g
                (aboveFloor_new ps Hnew) Hrun) as Hfloor.
  destruct (specialRule g) eqn:Hspecial.
  - destruct (gameOver_iff_cases g Hwf) as [g' [r [Hcalc [Hsp Hsame]]]].
    rewrite Hspecial in Hsp. specialize (Hsame Hspecial). subst g'.
    exists g, r, (players g). split; [exact Hcalc|]. split; [reflexivity|].
    pose proof (aboveFloor_nobody _ Hfloor) as Hnone.
    fold toEliminate. unfold toEliminate in Hnone |- *.
    split; [eauto|]. split; [reflexivity|]. split; [reflexivity|].
    split; [|split].
    + intros k p1 Hk. exists p1. split; [exact Hk|]. split; [reflexivity|].
      destruct (isAlive p1) eqn:Hal; [|reflexivity].
      unfold aboveFloor in Hfloor. rewrite Forall_forall in Hfloor.
      assert (Hp : -10 < points p1).
      { apply Hfloor; [|exact Hal]. apply get_In in Hk.
        apply (in_map snd) in Hk. exact Hk. }
      apply Z.leb_gt in Hp. rewrite Hp. reflexivity.
    + rewrite Hnone. simpl. lia.
    + intros r' ->. discriminate.
  - destruct (elimination_check_normal g Hwf Hspecial)
      as [g' [r [ps1 [Hcalc [Hpen [H1 [H2 [H3 [H4 [H5 H6]]]]]]]]]].
    exists g', (NormalResult r), ps1. split; [exact Hcalc|].
    split; [exact Hpen|]. repeat (split; [assumption|]).
    intros r' [= <-]. exact H6.
Qed.

(** [elimination_check] at the tenth resolution of the scenario, which
    eliminates [a], [b] and [c]. *)
Lemma elimination_check_witness :
  let g := Scenario.gNine in
  newPlayers Scenario.five
  /\ run Scenario.tenthRoundOpen (newDeathGame Scenario.five) = Some g
  /\ exists g' r ps1,
       calculateRoundResults g = Some (g', r)
       /\ (if specialRule g then Some (players g)
           else applyPenalties (winner r)
                  (target (JSMap.values (roundNumbers g))) (players g)
                  (roundNumbers g)) = Some ps1
       /\ (forall k p, JSMap.get (players g) k = Some p ->
             exists p1, JSMap.get ps1 k = Some p1 /\ isAlive p1 = isAlive p)
       /\ aliveCount ps1 = aliveCount (players g)
       /\ JSMap.keys (players g') = JSMap.keys ps1
       /\ (forall k p1, JSMap.get ps1 k = Some p1 ->
             exists p', JSMap.get (players g') k = Some p'
               /\ points p' = points p1
               /\ isAlive p' = isAlive p1 && negb (points p1 <=? -10))
       /\ eliminatedCount g'
          = eliminatedCount g
            + Z.of_nat
                (List.length
                   (filter (fun p => isAlive p && (points p <=? -10))
                      (JSMap.values ps1)))
       /\ (forall r', r = NormalResult r' ->
             res_eliminations r'
             = map PlayerRef
                 (JSMap.keys
                    (filter
                       (fun e => isAlive (snd e) && (points (snd e) <=? -10))
                       ps1))).
Proof.
  intros g. pose proof (proj1 gNine_reached) as Hrun.
  split; [exact newPlayers_five|]. split; [exact Hrun|].
  exact (elimination_check Scenario.five Scenario.tenthRoundOpen g
           newPlayers_five Hrun).
Defined.

(** C4. On the ordinary path of a resolution a submitter other than the
    winner loses exactly 1 point, or exactly 2 when exactly three players are
    alive and the submitted number [===] the target; the winner's points and
    the points of a player without a submission do not change. *)
Theorem penalty_application (g : DeathGame) :
  wellFormed g -> specialRule g = false ->
  exists g' r,
    calculateRoundResults g = Some (g', NormalResult r)
    /\ (forall k num p,
          In (k, num) (roundNumbers g) -> JSMap.get (players g) k = Some p ->
          res_winner r <> PlayerRef k ->
          exists p', JSMap.get (players g') k = Some p'
            /\ points p'
               = points p
                 - (if (aliveCount (players g) =? 3)
                       && Num.strictEq num (res_target r)
                    then 2 else 1))
    /\ (forall k p,
          res_winner r = PlayerRef k -> JSMap.get (players g) k = Some p ->
          exists p', JSMap.get (players g') k = Some p'
            /\ points p' = points p)
    /\ (forall k p,
          ~ In k (JSMap.keys (roundNumbers g)) ->
          JSMap.get (players g) k = Some p ->
          exists p', JSMap.get (players g') k = Some p'
            /\ points p' = points p).
Proof.
  intros Hwf Hspecial.
  destruct (resolution_players g Hwf Hspecial)
    as [g' [r [ps1 [Hcalc [_ [_ [Hps [_ [_ [_ [_ Hpts]]]]]]]]]]].
  exists g', r. split; [exact Hcalc|].
  assert (Hget : forall k p, JSMap.get (players g) k = Some p ->
            exists p', JSMap.get (players g') k = Some p'
              /\ points p'
                 = points p
                   + pointsChange (aliveCount (players g)) (res_target r)
                       (res_winner r) (roundNumbers g) k).
  { intros k p Hk. destruct (Hpts k p Hk) as [p1 [Hk1 [_ Hp1]]].
    exists (eliminated p1). rewrite Hps, get_map_values, Hk1.
    split; [reflexivity|]. rewrite eliminated_points. exact Hp1. }
  destruct Hwf as [Hwf _]. split; [|split].
  - intros k num p Hin Hk Hwin. destruct (Hget k p Hk) as [p' [Hk' Hp']].
    exists p'. split; [exact Hk'|]. rewrite Hp'. unfold pointsChange.
    rewrite (In_get _ _ _ Hwf Hin).
    destruct (jsref_eqb (PlayerRef k) (res_winner r)) eqn:E.
    + destruct (res_winner r) as [| |kw]; try discriminate.
      apply String.eqb_eq in E. congruence.
    + unfold penaltyAt.
      destruct ((aliveCount (players g) =? 3)
                && Num.strictEq num (res_target r)); lia.
  - intros k p Hwin Hk. destruct (Hget k p Hk) as [p' [Hk' Hp']].
    exists p'. split; [exact Hk'|]. rewrite Hp'. unfold pointsChange.
    rewrite Hwin. unfold jsref_eqb. rewrite String.eqb_refl.
    destruct (JSMap.get (roundNumbers g) k); lia.
  - intros k p Hout Hk. destruct (Hget k p Hk) as [p' [Hk' Hp']].
    exists p'. split; [exact Hk'|]. rewrite Hp'. unfold pointsChange.
    destruct (JSMap.get (roundNumbers g) k) eqn:E; [|lia].
    destruct Hout. apply get_In in E. apply (in_map fst) in E. exact E.
Qed.

(** [penalty_application] with three players alive, two of them on the
    target: [c] and [d] lose 2 points each and [e] wins. *)
Lemma penalty_application_witness :
  let g := Scenario.gThree in
  wellFormed g /\ specialRule g = false
  /\ exists g' r,
       calculateRoundResults g = Some (g', NormalResult r)
       /\ (forall k num p,
             In (k, num) (roundNumbers g) -> JSMap.get (players g) k = Some p ->
             res_winner r <> PlayerRef k ->
             exists p', JSMap.get (players g') k = Some p'
               /\ points p'
                  = points p
                    - (if (aliveCount (players g) =? 3)
                          && Num.strictEq num (res_target r)
                       then 2 else 1))
       /\ (forall k p,
             res_winner r = PlayerRef k -> JSMap.get (players g) k = Some p ->
             exists p', JSMap.get (players g') k = Some p'
               /\ points p' = points p)
       /\ (forall k p,
             ~ In k (JSMap.keys (roundNumbers g)) ->
             JSMap.get (players g) k = Some p ->
             exists p', JSMap.get (players g') k = Some p'
               /\ points p' = points p).
Proof.
  intros g. pose proof (proj2 gThree_reached) as Hwf.
  split; [exact Hwf|]. split; [reflexivity|].
  exact (penalty_application g Hwf eq_refl).
Defined.

(** C5 (as the code has it). A resolution reports [gameOver] exactly when
    the two-player rule fired or at most one player is alive after the
    elimination check; when the rule fires the result is its special result,
    nothing is eliminated and two players stay alive. *)
Theorem gameOver_iff (g : DeathGame) :
  wellFormed g ->
  exists g' r,
    calculateRoundResults g = Some (g', r)
    /\ isSpecial r = specialRule g
    /\ (gameOver r = true
        <-> specialRule g = true \/ aliveCount (players g') <= 1)
    /\ (specialRule g = true -> g' = g /\ aliveCount (players g') = 2).
Proof.
  intros Hwf. destruct (specialRule g) eqn:Hspecial.
  - pose proof Hspecial as H. unfold specialRule in H.
    apply andb_true_iff in H. destruct H as [H H100].
    apply andb_true_iff in H. destruct H as [H2 _].
    destruct (find100_includes _ H100) as [[k v] Hfind].
    exists g, (SpecialResult (playerRef (players g) k)).
    unfold calculateRoundResults. rewrite Hspecial, Hfind.
    split; [reflexivity|]. split; [reflexivity|]. simpl.
    split; [tauto|]. intros _. split; [reflexivity|].
    apply Z.eqb_eq, H2.
  - destruct (resolution_players g Hwf Hspecial)
      as [g' [r [ps1 [Hcalc [_ [_ [_ [_ [Hover _]]]]]]]]].
    exists g', (NormalResult r). split; [exact Hcalc|].
    split; [reflexivity|]. simpl. rewrite Hover, Z.leb_le.
    split; [|intros H; discriminate].
    split; [auto | intros [H|H]; [discriminate | exact H]].
Qed.

(** [gameOver_iff] at the eleventh round of the scenario. *)
Lemma gameOver_iff_witness :
  let g := Scenario.gFinal in
  wellFormed g
  /\ exists g' r,
       calculateRoundResults g = Some (g', r)
       /\ isSpecial r = specialRule g
       /\ (gameOver r = true
           <-> specialRule g = true \/ aliveCount (players g') <= 1)
       /\ (specialRule g = true -> g' = g /\ aliveCount (players g') = 2).
Proof.
  intros g. pose proof (proj2 gFinal_reached) as Hwf.
  split; [exact Hwf|]. exact (gameOver_iff g Hwf).
Defined.

(** C5, the claim against the code: the two survivors of [Scenario.gFinal]
    submit 0 and 100; the resolution reports [gameOver] while two players
    are alive after it. *)
Lemma gameOver_counterexample :
  run Scenario.finalRound (newDeathGame Scenario.five) = Some Scenario.gFinal
  /\ calculateRoundResults Scenario.gFinal
     = Some (Scenario.gFinal, SpecialResult (PlayerRef "e"))
  /\ ~ (gameOver (SpecialResult (PlayerRef "e")) = true
        <-> aliveCount (players Scenario.gFinal) <= 1).
Proof.
  split; [exact (proj1 gFinal_reached)|]. split; [reflexivity|].
  intros [H _]. specialize (H eq_refl). vm_compute in H. apply H. reflexivity.
Qed.

(** C6, the claim against the code: [calculateRoundResults] never assigns
    [currentPhase]. After the resolution of scenario A the phase is still
    [playing], a further [submitNumber] is stored and answers [true], and a
    second resolution of the same round penalises the losers again. *)
Theorem phase_stays_playing :
  (forall g, match calculateRoundResults g with
             | Some (g', _) => currentPhase g' = currentPhase g
             | None => True
             end)
  /\ exists g1 r1 g2 r2,
       calculateRoundResults Scenario.gA = Some (g1, r1)
       /\ currentPhase g1 = playing
       /\ submitNumber g1 "c" 40%float
          = ({| players := players g1; round := round g1;
                eliminatedCount := eliminatedCount g1;
                roundStartTime := roundStartTime g1;
                currentPhase := playing;
                roundNumbers :=
                  [("a"%string, 50%float); ("b"%string, 50%float);
                   ("c"%string, 40%float); ("d"%string, 70%float);
                   ("e"%string, 90%float)] |}, true)
       /\ calculateRoundResults (fst (submitNumber g1 "c" 40%float))
          = Some (g2, r2)
       /\ option_map points (JSMap.get (players g1) "e") = Some (-1)
       /\ option_map points (JSMap.get (players g2) "e") = Some (-2).
Proof.
  split.
  - intros g. destruct (calculateRoundResults g) as [[g' r]|] eqn:H; [|exact I].
    exact (proj1 (calculateRoundResults_frame g g' r H)).
  - do 4 eexists. vm_compute. repeat split.
Qed.

(** C7 (as the code has it). At every state a session reaches, each key of
    [roundNumbers] is the id of a player of the session who was alive when
    the current round was opened (by the constructor, by [startRound] or by
    the timer callback); the keys are ids of currently alive players as long
    as [eliminatedCount] is what it was when the round was opened. *)
Theorem submitters_alive_at_round_start (ps : JSMap.t Player) (ops : list Op)
  (g0 g : DeathGame) :
  runRound ops (newDeathGame ps) (newDeathGame ps) = Some (g0, g) ->
  incl (JSMap.keys (roundNumbers g)) (aliveIds (players g0))
  /\ incl (JSMap.keys (roundNumbers g)) (JSMap.keys (players g))
  /\ (eliminatedCount g = eliminatedCount g0 -> submittersAlive g).
Proof.
  intros Hrun.
  pose proof (roundInv_runRound ops _ _ _ _
                (roundInv_open (newDeathGame ps) eq_refl) Hrun)
    as [Hkeys [_ [_ Hsame]]].
  split; [exact Hkeys|]. split.
  - destruct (run_wellFormed ops (newDeathGame ps) (wellFormed_new ps))
      as [g1 [Hrun1 [_ Hknown]]].
    rewrite (runRound_run _ _ _ _ _ Hrun) in Hrun1.
    injection Hrun1 as <-. unfold knownSubmitters in Hknown.
    rewrite forallb_forall in Hknown.
    intros k Hk. apply has_In_keys, Hknown, Hk.
  - intros Heq. unfold submittersAlive.
    rewrite aliveIds_lives, (Hsame Heq), <- aliveIds_lives. exact Hkeys.
Qed.

(** [submitters_alive_at_round_start] after the tenth resolution of the
    scenario. *)
Lemma submitters_alive_at_round_start_witness :
  exists g0,
    runRound Scenario.tenRounds (newDeathGame Scenario.five)
      (newDeathGame Scenario.five) = Some (g0, Scenario.gTen)
    /\ incl (JSMap.keys (roundNumbers Scenario.gTen)) (aliveIds (players g0))
    /\ incl (JSMap.keys (roundNumbers Scenario.gTen))
         (JSMap.keys (players Scenario.gTen))
    /\ (eliminatedCount Scenario.gTen = eliminatedCount g0 ->
        submittersAlive Scenario.gTen).
Proof.
  eexists. split; [vm_compute; reflexivity|].
  eapply (submitters_alive_at_round_start Scenario.five Scenario.tenRounds).
  vm_compute. reflexivity.
Defined.

(** C7, the claim against the code: after the tenth resolution of
    [Scenario.tenRounds] the eliminated player [a] still is a key of
    [roundNumbers]. *)
Lemma stale_submitters_counterexample :
  run Scenario.tenRounds (newDeathGame Scenario.five) = Some Scenario.gTen
  /\ In "a"%string (JSMap.keys (roundNumbers Scenario.gTen))
  /\ ~ In "a"%string (aliveIds (players Scenario.gTen))
  /\ ~ submittersAlive Scenario.gTen.
Proof.
  split; [exact (proj1 gTen_reached)|].
  assert (Hin : In "a"%string (JSMap.keys (roundNumbers Scenario.gTen)))
    by (simpl; auto).
  assert (Hout : ~ In "a"%string (aliveIds (players Scenario.gTen)))
    by (simpl; intuition discriminate).
  split; [exact Hin|]. split; [exact Hout|].
  intros H. exact (Hout (H _ Hin)).
Qed.

(** C8. Over every sequence of calls (round starts, timer callbacks,
    submissions, resolutions) each player of the session stays in it and
    ends with points less than or equal to the points before. *)
Theorem points_never_increase (ops : list Op) (g g' : DeathGame)
  (k : string) (p : Player) :
  run ops g = Some g' -> JSMap.get (players g) k = Some p ->
  exists p', JSMap.get (players g') k = Some p' /\ points p' <= points p.
Proof.
  revert g p. induction ops as [|op ops IH]; intros g p; simpl.
  - intros [= <-] Hk. exists p. split; [exact Hk | lia].
  - destruct (step op g) as [g1|] eqn:Hstep; [|discriminate].
    intros Hrun Hk.
    destruct (step_player op g g1 k p Hstep Hk) as [p1 [Hk1 [Hp1 _]]].
    destruct (IH g1 p1 Hrun Hk1) as [p' [Hk' Hp']].
    exists p'. split; [exact Hk' | lia].
Qed.

(** [points_never_increase] for [d] over the ten rounds of the scenario. *)
Lemma points_never_increase_witness :
  run Scenario.tenRounds (newDeathGame Scenario.five) = Some Scenario.gTen
  /\ JSMap.get (players (newDeathGame Scenario.five)) "d"
     = Some (newPlayer "d" "Dee")
  /\ exists p', JSMap.get (players Scenario.gTen) "d" = Some p'
       /\ points p' <= points (newPlayer "d" "Dee").
Proof.
  pose proof (proj1 gTen_reached) as Hrun.
  split; [exact Hrun|]. split; [reflexivity|].
  exact (points_never_increase Scenario.tenRounds
           (newDeathGame Scenario.five) Scenario.gTen "d"
           (newPlayer "d" "Dee") Hrun eq_refl).
Defined.

(** C9. When at most four players are alive and every submitted value is
    shared by two or more submissions, the resolution (on its ordinary path,
    which is the path taken whenever there is one submission per alive
    player) selects no winner, [winner] is [null], and every submitter loses
    1 point, or 2 under the three-player rule. *)
Theorem all_duplicates_no_winner (g : DeathGame) :
  wellFormed g ->
  aliveCount (players g) <= 4 ->
  (forall v, In v (JSMap.values (roundNumbers g)) ->
     shared (JSMap.values (roundNumbers g)) v = true) ->
  specialRule g = false
  \/ JSMap.size (roundNumbers g) = aliveCount (players g) ->
  exists g' r,
    calculateRoundResults g = Some (g', NormalResult r)
    /\ res_winner r = Null
    /\ forall k num p,
         In (k, num) (roundNumbers g) -> JSMap.get (players g) k = Some p ->
         exists p', JSMap.get (players g') k = Some p'
           /\ points p'
              = points p
                - (if (aliveCount (players g) =? 3)
                      && Num.strictEq num (res_target r)
                   then 2 else 1).
Proof.
  intros Hwf Halive Hshared Hpath.
  assert (Hspecial : specialRule g = false).
  { destruct Hpath as [H|H]; [exact H|].
    exact (all_shared_not_special g H Hshared). }
  destruct (resolution_players g Hwf Hspecial)
    as [g' [r [ps1 [Hcalc [_ [_ [Hps [_ [_ [_ [Hwin Hpts]]]]]]]]]]].
  exists g', r. split; [exact Hcalc|].
  assert (Hnull : res_winner r = Null).
  { rewrite Hwin, findWinner_all_skipped; [reflexivity|].
    intros e He. unfold skipped.
    rewrite shared_includes by (apply Hshared, in_map, He).
    apply Z.leb_le in Halive. rewrite Halive. reflexivity. }
  split; [exact Hnull|].
  intros k num p Hin Hk. destruct (Hpts k p Hk) as [p1 [Hk1 [_ Hp1]]].
  exists (eliminated p1). rewrite Hps, get_map_values, Hk1.
  split; [reflexivity|]. rewrite eliminated_points, Hp1.
  unfold pointsChange. destruct Hwf as [Hwf _].
  rewrite (In_get _ _ _ Hwf Hin), Hnull. unfold jsref_eqb, penaltyAt.
  destruct ((aliveCount (players g) =? 3) && Num.strictEq num (res_target r));
    lia.
Qed.

(** [all_duplicates_no_winner] with three players alive who all submit 0. *)
Lemma all_duplicates_no_winner_witness :
  let g := Scenario.gZero in
  wellFormed g /\ aliveCount (players g) <= 4
  /\ (forall v, In v (JSMap.values (roundNumbers g)) ->
        shared (JSMap.values (roundNumbers g)) v = true)
  /\ JSMap.size (roundNumbers g) = aliveCount (players g)
  /\ exists g' r,
       calculateRoundResults g = Some (g', NormalResult r)
       /\ res_winner r = Null
       /\ forall k num p,
            In (k, num) (roundNumbers g) -> JSMap.get (players g) k = Some p ->
            exists p', JSMap.get (players g') k = Some p'
              /\ points p'
                 = points p
                   - (if (aliveCount (players g) =? 3)
                         && Num.strictEq num (res_target r)
                      then 2 else 1).
Proof.
  intros g. pose proof (proj2 gZero_reached) as Hwf.
  assert (Halive : aliveCount (players g) <= 4) by (vm_compute; discriminate).
  assert (Hshared : forall v, In v (JSMap.values (roundNumbers g)) ->
            shared (JSMap.values (roundNumbers g)) v = true).
  { intros v [<-|[<-|[<-|[]]]]; reflexivity. }
  split; [exact Hwf|]. split; [exact Halive|]. split; [exact Hshared|].
  split; [reflexivity|].
  exact (all_duplicates_no_winner g Hwf Halive Hshared (or_intror eq_refl)).
Defined.

(** C10. After every event each waiting room holds at most four players, so
    [joinRoom] never answers "Room is full"; and a join that brings a room
    to five players removes it from the waiting rooms and registers, under
    its code, a game on these five new players in its first round. *)
Theorem waiting_rooms_below_quorum (srv : Server) :
  serverReachable srv ->
  (forall roomCode room,
     JSMap.get (waitingRooms srv) roomCode = Some room ->
     JSMap.size (room_players room) <= 4)
  /\ (forall socketId roomCode playerName now,
        snd (joinRoom socketId roomCode playerName now srv) <> RoomIsFull)
  /\ (forall socketId roomCode playerName now room,
        JSMap.get (waitingRooms srv) roomCode = Some room ->
        JSMap.size (JSMap.set (room_players room) socketId
                      (newPlayer socketId playerName)) = 5 ->
        let srv' := fst (joinRoom socketId roomCode playerName now srv) in
        JSMap.get (waitingRooms srv') roomCode = None
        /\ exists game,
             JSMap.get (games srv') roomCode = Some game
             /\ players game
                = JSMap.set (room_players room) socketId
                    (newPlayer socketId playerName)
             /\ newPlayers (players game)
             /\ currentPhase game = playing /\ round game = 1).
Proof.
  intros Hreach. destruct (roomsBelowQuorum_reachable srv Hreach) as [Hwf Hsize].
  split; [|split].
  - intros roomCode room Hroom. apply (Hsize roomCode room Hroom).
  - intros socketId roomCode playerName now. unfold joinRoom.
    destruct (JSMap.get (waitingRooms srv) roomCode) as [room|] eqn:Hroom;
      [|discriminate].
    pose proof (Hsize roomCode room Hroom) as [Hroom4 _].
    replace (JSMap.size (room_players room) >=? 5) with false
      by (symmetry; rewrite Z.geb_leb; apply Z.leb_gt; lia).
    destruct (JSMap.size _ =? 5); discriminate.
  - intros socketId roomCode playerName now room Hroom Hfive srv'.
    subst srv'. unfold joinRoom. rewrite Hroom.
    pose proof (Hsize roomCode room Hroom) as [Hroom4 Hnew].
    replace (JSMap.size (room_players room) >=? 5) with false
      by (symmetry; rewrite Z.geb_leb; apply Z.leb_gt; lia).
    rewrite Hfive. simpl. split; [apply get_delete_same, Hwf|].
    rewrite get_set_same. eexists. split; [reflexivity|].
    simpl. split; [reflexivity|]. split; [apply newPlayers_set, Hnew | auto].
Qed.

(** [waiting_rooms_below_quorum] at a room that four players have joined. *)
Lemma waiting_rooms_below_quorum_witness :
  let srv := Scenario.roomOfFour in
  serverReachable srv
  /\ (forall roomCode room,
        JSMap.get (waitingRooms srv) roomCode = Some room ->
        JSMap.size (room_players room) <= 4)
  /\ (forall socketId roomCode playerName now,
        snd (joinRoom socketId roomCode playerName now srv) <> RoomIsFull)
  /\ (forall socketId roomCode playerName now room,
        JSMap.get (waitingRooms srv) roomCode = Some room ->
        JSMap.size (JSMap.set (room_players room) socketId
                      (newPlayer socketId playerName)) = 5 ->
        let srv' := fst (joinRoom socketId roomCode playerName now srv) in
        JSMap.get (waitingRooms srv') roomCode = None
        /\ exists game,
             JSMap.get (games srv') roomCode = Some game
             /\ players game
                = JSMap.set (room_players room) socketId
                    (newPlayer socketId playerName)
             /\ newPlayers (players game)
             /\ currentPhase game = playing /\ round game = 1).
Proof.
  intros srv. split; [exact roomOfFour_reachable|].
  exact (waiting_rooms_below_quorum srv roomOfFour_reachable).
Defined.

(** * Further properties of the code *)

(** ** More on binary64 comparison *)

Module OrderFacts.

Local Open Scope float_scope.

Lemma SFcompare_below (a b c : spec_float) :
  SFcompare a b = Some Lt -> SFcompare c b <> Some Lt -> c <> S754_nan ->
  SFcompare a c = Some Lt.
Proof.
  destruct c as [[]|[]| |[] mc ec]; by_cases a b.
Qed.

Lemma not_nan_Prim2SF (c : float) :
  is_nan c = false -> Prim2SF c <> S754_nan.
Proof.
  unfold is_nan. rewrite eqb_spec. intros H E. rewrite E in H. discriminate.
Qed.

(** What does not lie below [b], and is no NaN, lies above all that lies
    below [b]. *)
Lemma ltb_below (a b c : float) :
  (a <? b) = true -> (c <? b) = false -> is_nan c = false ->
  (a <? c) = true.
Proof.
  intros Hab Hcb Hc. apply ltb_true_iff. apply ltb_true_iff in Hab.
  apply (SFcompare_below _ (Prim2SF b)); [exact Hab | | apply not_nan_Prim2SF, Hc].
  intros H. apply ltb_true_iff in H. congruence.
Qed.

Lemma nan_distance_nan (v t : float) :
  is_nan v = true -> is_nan (abs (v - t)) = true.
Proof.
  intros H. unfold is_nan. rewrite eqb_spec, abs_spec, sub_spec.
  rewrite (is_nan_Prim2SF v H). reflexivity.
Qed.

Lemma strictEq_nan_r (x y : float) :
  is_nan y = true -> Num.strictEq x y = false.
Proof.
  intros H. unfold Num.strictEq. rewrite eqb_spec, (is_nan_Prim2SF y H).
  unfold SFeqb. destruct (Prim2SF x); reflexivity.
Qed.

End OrderFacts.

(** ** The winner loop keeps the first of the closest *)

Module TieFacts.

Import OrderFacts.

Lemma winnerStep_firstInv ps dups tgt (done : JSMap.t float) acc e :
  firstInv ps dups tgt done acc ->
  firstInv ps dups tgt (done ++ [e]) (winnerStep ps dups tgt acc e).
Proof.
  intros Hinv. unfold winnerStep.
  fold (skipped ps dups e). fold (distanceTo tgt e).
  destruct (skipped ps dups e) eqn:Hskip.
  - destruct Hinv as [[Hc [Hd Hall]]|[pre [w [post [Hdone [Hw [Hc [Hd [Hpre Hpost]]]]]]]]].
    + left. repeat split; try assumption.
      intros e' He' Hs'. apply in_app_iff in He'.
      destruct He' as [He'|[<-|[]]]; [auto | congruence].
    + right. exists pre, w, (post ++ [e]). rewrite Hdone, <- app_assoc.
      repeat split; try assumption.
      intros e' He' Hs'. apply in_app_iff in He'.
      destruct He' as [He'|[<-|[]]]; [auto | congruence].
  - destruct (distanceTo tgt e <? snd acc)%float eqn:Hlt.
    + right. exists done, e, []. cbn [fst snd].
      repeat split; try assumption; try reflexivity; [|intros e' []].
      intros e' He' Hs' Hnan.
      destruct Hinv as [[_ [Hd Hall]]|[pre [w [post [Hdone [_ [_ [Hd [Hpre Hpost]]]]]]]]].
      * rewrite Hd in Hlt.
        exact (ltb_below _ _ _ Hlt (Hall e' He' Hs') Hnan).
      * rewrite Hd in Hlt. rewrite Hdone in He'. apply in_app_iff in He'.
        destruct He' as [He'|[<-|He']].
        -- exact (ltb_trans _ _ _ Hlt (Hpre e' He' Hs' Hnan)).
        -- exact Hlt.
        -- exact (ltb_below _ _ _ Hlt (Hpost e' He' Hs') Hnan).
    + destruct Hinv as [[Hc [Hd Hall]]|[pre [w [post [Hdone [Hw [Hc [Hd [Hpre Hpost]]]]]]]]].
      * left. repeat split; try assumption.
        intros e' He' Hs'. apply in_app_iff in He'.
        destruct He' as [He'|[<-|[]]]; [auto|]. rewrite <- Hd. exact Hlt.
      * right. exists pre, w, (post ++ [e]). rewrite Hdone, <- app_assoc.
        repeat split; try assumption.
        intros e' He' Hs'. apply in_app_iff in He'.
        destruct He' as [He'|[<-|[]]]; [auto|]. rewrite <- Hd. exact Hlt.
Qed.

Lemma findWinner_firstInv ps dups tgt (entries : JSMap.t float) :
  firstInv ps dups tgt entries (findWinner ps dups tgt entries).
Proof.
  unfold findWinner.
  assert (H : forall rest done acc,
            firstInv ps dups tgt done acc ->
            firstInv ps dups tgt (done ++ rest)
              (fold_left (winnerStep ps dups tgt) rest acc)).
  { induction rest as [|e rest IH]; intros done acc Hinv; simpl.
    - rewrite app_nil_r. exact Hinv.
    - replace (done ++ e :: rest) with ((done ++ [e]) ++ rest)
        by (rewrite <- app_assoc; reflexivity).
      apply IH, winnerStep_firstInv, Hinv. }
  apply (H entries [] (Null, infinity)).
  left. repeat split. intros e [].
Qed.

End TieFacts.

(** ** Counting the players *)

Module CountFacts.

Import JSMapFacts LoopFacts SessionFacts.

Lemma alive_dead_size (ps : JSMap.t Player) :
  aliveCount ps + deadCount ps = JSMap.size ps.
Proof.
  unfold aliveCount, deadCount, JSMap.size, alivePlayers, JSMap.values.
  induction ps as [|[k p] ps IH]; [reflexivity|].
  cbn [map filter snd]. destruct (isAlive p); cbn [negb List.length];
    rewrite ?Nat2Z.inj_succ in *; lia.
Qed.

Lemma deadCount_lives (ps ps' : JSMap.t Player) :
  lives ps' = lives ps -> deadCount ps' = deadCount ps.
Proof.
  intros H. pose proof (alive_dead_size ps) as H1.
  pose proof (alive_dead_size ps') as H2.
  assert (aliveCount ps' = aliveCount ps)
    by (rewrite !aliveCount_lives, H; reflexivity).
  assert (JSMap.size ps' = JSMap.size ps).
  { unfold JSMap.size. f_equal.
    apply (f_equal (@List.length _)) in H. unfold lives in H.
    rewrite !length_map in H. exact H. }
  lia.
Qed.

Lemma deadCount_eliminated (ps : JSMap.t Player) :
  deadCount (map (fun e => (fst e, eliminated (snd e))) ps)
  = deadCount ps
    + Z.of_nat (List.length (filter toEliminate (JSMap.values ps))).
Proof.
  unfold deadCount, JSMap.values.
  induction ps as [|[k p] ps IH]; [reflexivity|].
  cbn [map filter fst snd]. rewrite eliminated_isAlive.
  unfold toEliminate in *.
  destruct (isAlive p), (points p <=? -10); cbn [negb andb List.length];
    rewrite ?Nat2Z.inj_succ in *; lia.
Qed.

Lemma deadCount_new (ps : JSMap.t Player) : newPlayers ps -> deadCount ps = 0.
Proof.
  unfold deadCount, JSMap.values, newPlayers.
  induction 1 as [|[k p] ps [n Hp] _ IH]; simpl in *; [reflexivity|].
  subst p. simpl. exact IH.
Qed.

(** A call changes neither the keys of [players] nor their order. *)
Lemma step_keys (op : Op) (g g' : DeathGame) :
  step op g = Some g' -> JSMap.keys (players g') = JSMap.keys (players g).
Proof.
  destruct op as [now|now|playerId num|]; simpl.
  - intros [= <-]. reflexivity.
  - intros [= <-]. reflexivity.
  - intros [= <-]. rewrite submitNumber_players. reflexivity.
  - destruct (calculateRoundResults g) as [[g1 r]|] eqn:Hcalc; [|discriminate].
    intros [= <-]. apply calculateRoundResults_cases in Hcalc.
    destruct Hcalc as [[_ [-> _]]|[_ [_ [ps1 [Hpen ->]]]]]; [reflexivity|].
    destruct (applyPenalties_spec _ _ _ _ _ Hpen) as [Hl _].
    cbn [players].
    assert (H : JSMap.keys (map (fun e => (fst e, eliminated (snd e))) ps1)
                = JSMap.keys ps1)
      by (unfold JSMap.keys; rewrite map_map; reflexivity).
    rewrite H, <- !keys_lives, Hl. reflexivity.
Qed.

Lemma run_keys (ops : list Op) (g g' : DeathGame) :
  run ops g = Some g' -> JSMap.keys (players g') = JSMap.keys (players g).
Proof.
  revert g. induction ops as [|op ops IH]; intros g; simpl.
  - intros [= <-]. reflexivity.
  - destruct (step op g) as [g1|] eqn:Hstep; [|discriminate].
    intros H. rewrite (IH g1 H). exact (step_keys op g g1 Hstep).
Qed.

(** The counters of a session: [eliminatedCount] counts the dead players and
    [round] is at least 1. *)
Lemma step_counters (op : Op) (g g' : DeathGame) :
  step op g = Some g' ->
  eliminatedCount g = deadCount (players g) /\ 1 <= round g ->
  eliminatedCount g' = deadCount (players g') /\ 1 <= round g'.
Proof.
  intros Hstep [Hdead Hround].
  destruct op as [now|now|playerId num|]; simpl in Hstep.
  - injection Hstep as <-. simpl. auto.
  - injection Hstep as <-. simpl. split; [exact Hdead | lia].
  - injection Hstep as <-. rewrite submitNumber_players.
    unfold submitNumber. destruct (currentPhase g); simpl; auto.
    destruct (JSMap.get (players g) playerId) as [p|]; simpl; auto.
    destruct (isAlive p); simpl; auto.
  - destruct (calculateRoundResults g) as [[g1 r]|] eqn:Hcalc; [|discriminate].
    injection Hstep as <-. apply calculateRoundResults_cases in Hcalc.
    destruct Hcalc as [[_ [-> _]]|[_ [_ [ps1 [Hpen ->]]]]]; [auto|].
    destruct (applyPenalties_spec _ _ _ _ _ Hpen) as [Hl _].
    cbn [players eliminatedCount round]. split; [|exact Hround].
    rewrite deadCount_eliminated, (deadCount_lives _ _ Hl), Hdead. reflexivity.
Qed.

Lemma run_counters (ops : list Op) (g g' : DeathGame) :
  run ops g = Some g' ->
  eliminatedCount g = deadCount (players g) /\ 1 <= round g ->
  eliminatedCount g' = deadCount (players g') /\ 1 <= round g'.
Proof.
  revert g. induction ops as [|op ops IH]; intros g; simpl.
  - intros [= <-]. auto.
  - destruct (step op g) as [g1|] eqn:Hstep; [|discriminate].
    intros H Hg. exact (IH g1 H (step_counters op g g1 Hstep Hg)).
Qed.

(** An alive id of a [Map] of players is the key of an alive player. *)
Lemma aliveIds_get (ps : JSMap.t Player) (k : string) :
  JSMap.wf ps -> In k (aliveIds ps) ->
  exists p, JSMap.get ps k = Some p /\ isAlive p = true.
Proof.
  intros Hwf Hk. unfold aliveIds, JSMap.keys in Hk.
  apply in_map_iff in Hk. destruct Hk as [[k' p] [Hfst Hin]].
  simpl in Hfst. subst k'. apply filter_In in Hin. destruct Hin as [Hin Hal].
  exists p. split; [apply In_get; assumption | exact Hal].
Qed.

Lemma aliveIds_NoDup (ps : JSMap.t Player) :
  JSMap.wf ps -> NoDup (aliveIds ps).
Proof.
  unfold JSMap.wf, aliveIds, JSMap.keys.
  induction ps as [|[k p] ps IH]; simpl; [constructor|].
  intros Hnd. inversion Hnd as [|? ? Hnot Hnd']; subst.
  destruct (isAlive p); simpl; [|auto].
  constructor; [|auto]. intros H. apply Hnot.
  apply in_map_iff in H. destruct H as [e [He Hin]].
  apply filter_In in Hin. apply in_map_iff. exists e. tauto.
Qed.

Lemma aliveIds_length (ps : JSMap.t Player) :
  Z.of_nat (List.length (aliveIds ps)) = aliveCount ps.
Proof.
  rewrite aliveIds_lives, aliveCount_lives, length_map. reflexivity.
Qed.

End CountFacts.

(** ** The session *)

Import OrderFacts TieFacts CountFacts.

(** X1. Elimination is permanent: over every sequence of calls a player whose
    [isAlive] is false stays in the session with [isAlive] false. *)
Theorem elimination_is_permanent (ops : list Op) (g g' : DeathGame)
  (k : string) (p : Player) :
  run ops g = Some g' -> JSMap.get (players g) k = Some p ->
  isAlive p = false ->
  exists p', JSMap.get (players g') k = Some p' /\ isAlive p' = false.
Proof.
  revert g p. induction ops as [|op ops IH]; intros g p; simpl.
  - intros [= <-] Hk Hdead. exists p. auto.
  - destruct (step op g) as [g1|] eqn:Hstep; [|discriminate].
    intros Hrun Hk Hdead.
    destruct (step_player op g g1 k p Hstep Hk) as [p1 [Hk1 [_ Hal]]].
    apply (IH g1 p1 Hrun Hk1).
    destruct (isAlive p1); [|reflexivity]. rewrite Hal in Hdead; auto.
Qed.

(** [elimination_is_permanent] for [a], eliminated by the tenth resolution of
    the scenario, over the eleventh round. *)
Lemma elimination_is_permanent_witness :
  let ops :=
    ([OpNextRound 0; OpSubmitNumber "a" 50; OpSubmitNumber "d" 0;
      OpSubmitNumber "e" 100; OpCalculateRoundResults])%string%float in
  let p := kill (addPoints (newPlayer "a" "Ann") (-10)) in
  run ops Scenario.gTen = Some Scenario.gFinal
  /\ JSMap.get (players Scenario.gTen) "a" = Some p
  /\ isAlive p = false
  /\ exists p', JSMap.get (players Scenario.gFinal) "a" = Some p'
       /\ isAlive p' = false.
Proof.
  intros ops p.
  assert (Hrun : run ops Scenario.gTen = Some Scenario.gFinal) by reflexivity.
  split; [exact Hrun|]. split; [reflexivity|]. split; [reflexivity|].
  exact (elimination_is_permanent ops Scenario.gTen Scenario.gFinal "a" p
           Hrun eq_refl eq_refl).
Defined.

(** X2. In every session reached from a game on new players,
    [eliminatedCount] is the number of players with [isAlive] false, the
    alive and the eliminated players together are all the players, the
    player set is the one the game was created on, and [round] is at least
    1. *)
Theorem counters_of_a_session (ps : JSMap.t Player) (ops : list Op)
  (g : DeathGame) :
  newPlayers ps -> run ops (newDeathGame ps) = Some g ->
  eliminatedCount g = deadCount (players g)
  /\ aliveCount (players g) + eliminatedCount g = JSMap.size (players g)
  /\ JSMap.keys (players g) = JSMap.keys ps
  /\ 1 <= round g.
Proof.
  intros Hnew Hrun.
  assert (H0 : eliminatedCount (newDeathGame ps)
               = deadCount (players (newDeathGame ps))
               /\ 1 <= round (newDeathGame ps)).
  { simpl. rewrite (deadCount_new ps Hnew). split; [reflexivity | lia]. }
  destruct (run_counters ops _ _ Hrun H0) as [Hdead Hround].
  split; [exact Hdead|]. split; [|split; [|exact Hround]].
  - rewrite Hdead. apply alive_dead_size.
  - exact (run_keys ops _ _ Hrun).
Qed.

(** [counters_of_a_session] after the tenth resolution of the scenario. *)
Lemma counters_of_a_session_witness :
  newPlayers Scenario.five
  /\ run Scenario.tenRounds (newDeathGame Scenario.five) = Some Scenario.gTen
  /\ eliminatedCount Scenario.gTen = deadCount (players Scenario.gTen)
  /\ aliveCount (players Scenario.gTen) + eliminatedCount Scenario.gTen
     = JSMap.size (players Scenario.gTen)
  /\ JSMap.keys (players Scenario.gTen) = JSMap.keys Scenario.five
  /\ 1 <= round Scenario.gTen.
Proof.
  pose proof (proj1 gTen_reached) as Hrun.
  split; [exact newPlayers_five|]. split; [exact Hrun|].
  exact (counters_of_a_session Scenario.five Scenario.tenRounds Scenario.gTen
           newPlayers_five Hrun).
Defined.

(** X3. No sequence of calls on a new game raises: every call returns, and
    in the session reached [calculateRoundResults] returns as well, whatever
    the players and the submitted numbers. *)
Theorem resolution_never_raises (ps : JSMap.t Player) (ops : list Op) :
  exists g,
    run ops (newDeathGame ps) = Some g
    /\ exists g' r, calculateRoundResults g = Some (g', r).
Proof.
  destruct (run_wellFormed ops (newDeathGame ps) (wellFormed_new ps))
    as [g [Hrun Hwf]].
  exists g. split; [exact Hrun|]. exact (calculateRoundResults_returns g Hwf).
Qed.

(** X4. [submitNumber] in phase [playing] by an alive player stores the
    number under the player's id, overwriting an earlier submission of the
    player without adding an entry, leaves the other submissions, the
    players, the counters and the phase as they are, and answers whether
    there are as many submissions as alive players. In another phase, or for
    an id that is no player or a player that is not alive, it answers
    [false] and changes nothing. *)
Theorem submitNumber_effect (g : DeathGame) (k : string) (num : float) :
  (currentPhase g = playing ->
   (exists p, JSMap.get (players g) k = Some p /\ isAlive p = true) ->
   let g' := fst (submitNumber g k num) in
   JSMap.get (roundNumbers g') k = Some num
   /\ (forall k', k <> k' ->
         JSMap.get (roundNumbers g') k' = JSMap.get (roundNumbers g) k')
   /\ JSMap.size (roundNumbers g')
      = (if JSMap.has (roundNumbers g) k then JSMap.size (roundNumbers g)
         else JSMap.size (roundNumbers g) + 1)
   /\ players g' = players g /\ round g' = round g
   /\ eliminatedCount g' = eliminatedCount g
   /\ currentPhase g' = playing
   /\ snd (submitNumber g k num)
      = (JSMap.size (roundNumbers g') =? aliveCount (players g)))
  /\ (currentPhase g <> playing
      \/ JSMap.get (players g) k = None
      \/ (exists p, JSMap.get (players g) k = Some p /\ isAlive p = false) ->
      submitNumber g k num = (g, false)).
Proof.
  split.
  - intros Hphase [p [Hk Hal]]. unfold submitNumber.
    rewrite Hphase, Hk, Hal. cbn [fst snd roundNumbers players round
      eliminatedCount currentPhase].
    split; [apply get_set_same|]. split; [intros k' Hne; apply get_set_other, Hne|].
    split; [apply size_set|]. repeat split; reflexivity.
  - unfold submitNumber. intros [H|[H|[p [Hk Hal]]]].
    + destruct (currentPhase g); congruence.
    + rewrite H. destruct (currentPhase g); reflexivity.
    + rewrite Hk, Hal. destruct (currentPhase g); reflexivity.
Qed.

(** X5. While nobody has been eliminated since the current round was opened,
    there are as many submissions as alive players, which is what makes
    [submitNumber] answer [true], exactly when every alive player has a
    submission. *)
Theorem all_submitted_iff (ps : JSMap.t Player) (ops : list Op)
  (g0 g : DeathGame) :
  JSMap.wf ps ->
  runRound ops (newDeathGame ps) (newDeathGame ps) = Some (g0, g) ->
  eliminatedCount g = eliminatedCount g0 ->
  (JSMap.size (roundNumbers g) = aliveCount (players g)
   <-> incl (aliveIds (players g)) (JSMap.keys (roundNumbers g))).
Proof.
  intros Hwf Hrun Heq.
  pose proof (runRound_run _ _ _ _ _ Hrun) as Hrun1.
  destruct (run_wellFormed ops (newDeathGame ps) (wellFormed_new ps))
    as [g1 [Hrun2 [Hnd _]]].
  rewrite Hrun1 in Hrun2. injection Hrun2 as <-.
  pose proof (roundInv_runRound ops _ _ _ _
                (roundInv_open (newDeathGame ps) eq_refl) Hrun)
    as [Hkeys [_ [_ Hsame]]].
  assert (Hsub : incl (JSMap.keys (roundNumbers g)) (aliveIds (players g))).
  { rewrite aliveIds_lives, (Hsame Heq), <- aliveIds_lives. exact Hkeys. }
  assert (Hwfg : JSMap.wf (players g)).
  { unfold JSMap.wf. rewrite (run_keys ops _ _ Hrun1). exact Hwf. }
  pose proof (aliveIds_NoDup _ Hwfg) as Hnda.
  rewrite <- aliveIds_length. unfold JSMap.size.
  replace (List.length (roundNumbers g))
    with (List.length (JSMap.keys (roundNumbers g)))
    by (unfold JSMap.keys; apply length_map).
  split.
  - intros Hlen. apply (NoDup_length_incl Hnd); [lia | exact Hsub].
  - intros Hall. f_equal. apply Nat.le_antisymm.
    + exact (NoDup_incl_length Hnd Hsub).
    + exact (NoDup_incl_length Hnda Hall).
Qed.

(** [all_submitted_iff] in the tenth round of the scenario, all five
    submissions in. *)
Lemma all_submitted_iff_witness :
  exists g0,
    JSMap.wf Scenario.five
    /\ runRound Scenario.tenthRoundOpen (newDeathGame Scenario.five)
         (newDeathGame Scenario.five) = Some (g0, Scenario.gNine)
    /\ eliminatedCount Scenario.gNine = eliminatedCount g0
    /\ (JSMap.size (roundNumbers Scenario.gNine)
        = aliveCount (players Scenario.gNine)
        <-> incl (aliveIds (players Scenario.gNine))
              (JSMap.keys (roundNumbers Scenario.gNine))).
Proof.
  assert (Hwf : JSMap.wf Scenario.five)
    by (unfold JSMap.wf; simpl; repeat constructor; simpl;
        intuition discriminate).
  eexists. split; [exact Hwf|]. split; [vm_compute; reflexivity|].
  split; [reflexivity|].
  eapply (all_submitted_iff Scenario.five Scenario.tenthRoundOpen);
    [exact Hwf | vm_compute; reflexivity | reflexivity].
Defined.

(** X6. Ties go to the earlier submission: on the ordinary path the winner's
    submission is an entry of [roundNumbers] such that every eligible entry
    before it, unless its distance is NaN, lies strictly farther from the
    target, and no eligible entry after it lies strictly closer. *)
Theorem ties_go_to_the_first (g : DeathGame) :
  wellFormed g -> specialRule g = false ->
  exists g' r,
    calculateRoundResults g = Some (g', NormalResult r)
    /\ forall k, res_winner r = PlayerRef k ->
         exists pre v post,
           roundNumbers g = pre ++ (k, v) :: post
           /\ (forall k' v', In (k', v') pre -> eligible g v' = true ->
                 is_nan (distance g v') = false ->
                 (distance g v <? distance g v')%float = true)
           /\ (forall k' v', In (k', v') post -> eligible g v' = true ->
                 (distance g v' <? distance g v)%float = false).
Proof.
  intros [Hwf Hknown] Hspecial.
  destruct (calculateRoundResults_normal g Hspecial Hknown) as [ps1 [_ Hcalc]].
  eexists. eexists. split; [exact Hcalc|]. cbn [res_winner].
  intros k Hwin.
  destruct (findWinner_firstInv (players g)
              (duplicates (JSMap.values (roundNumbers g)))
              (target (JSMap.values (roundNumbers g))) (roundNumbers g))
    as [[Hnull _]|[pre [[kw vw] [post [Hsplit [Hw [Hc [_ [Hpre Hpost]]]]]]]]];
    [congruence|].
  assert (Hin : In (kw, vw) (roundNumbers g))
    by (rewrite Hsplit; apply in_app_iff; simpl; auto).
  rewrite (known_playerRef g (kw, vw) Hknown Hin) in Hc.
  rewrite Hc in Hwin. injection Hwin as Hk. simpl in Hk. subst kw.
  exists pre, vw, post. split; [exact Hsplit|]. split.
  - intros k' v' Hin' Hel Hnan.
    destruct (skipped (players g) (duplicates (JSMap.values (roundNumbers g)))
                (k', v')) eqn:Hs.
    + pose proof (eligible_skipped_nan g (k', v') Hel Hs) as Hv.
      unfold distance in Hnan.
      rewrite (nan_distance_nan _ _ Hv) in Hnan. discriminate.
    + exact (Hpre (k', v') Hin' Hs Hnan).
  - intros k' v' Hin' Hel.
    destruct (skipped (players g) (duplicates (JSMap.values (roundNumbers g)))
                (k', v')) eqn:Hs.
    + apply nan_distance. exact (eligible_skipped_nan g (k', v') Hel Hs).
    + exact (Hpost (k', v') Hin' Hs).
Qed.

(** [ties_go_to_the_first] at scenario A, where [a] and [b] both submitted
    50 and [a] wins. *)
Lemma ties_go_to_the_first_witness :
  let g := Scenario.gA in
  wellFormed g /\ specialRule g = false
  /\ exists g' r,
       calculateRoundResults g = Some (g', NormalResult r)
       /\ forall k, res_winner r = PlayerRef k ->
            exists pre v post,
              roundNumbers g = pre ++ (k, v) :: post
              /\ (forall k' v', In (k', v') pre -> eligible g v' = true ->
                    is_nan (distance g v') = false ->
                    (distance g v <? distance g v')%float = true)
              /\ (forall k' v', In (k', v') post -> eligible g v' = true ->
                    (distance g v' <? distance g v)%float = false).
Proof.
  intros g. pose proof (proj2 gA_reached) as Hwf.
  split; [exact Hwf|]. split; [reflexivity|].
  exact (ties_go_to_the_first g Hwf eq_refl).
Defined.

(** ** The winner of a round *)

Module WinnerFacts.

Import JSMapFacts LoopFacts ResolutionFacts SessionFacts RoundFacts FloorFacts.

(** The winner a resolution returns is a submitter. *)
Lemma winner_submitted (g g' : DeathGame) (r : RoundResult) (k : string) :
  wellFormed g -> calculateRoundResults g = Some (g', r) ->
  winner r = PlayerRef k -> In k (JSMap.keys (roundNumbers g)).
Proof.
  intros [Hwf Hknown]. unfold calculateRoundResults.
  destruct (specialRule g).
  - destruct (find100 (roundNumbers g)) as [[k100 v]|] eqn:Hfind; [|discriminate].
    intros [= _ <-]. simpl. unfold playerRef.
    destruct (JSMap.has (players g) k100); [|discriminate].
    intros [= <-]. apply find_some in Hfind. destruct Hfind as [Hin _].
    apply (in_map fst) in Hin. exact Hin.
  - destruct (applyPenalties _ _ (players g) (roundNumbers g)); [|discriminate].
    destruct (checkEliminations _ _) as [[ps2 count] elims].
    intros [= _ <-]. simpl.
    destruct (findWinner_inv (players g)
                (duplicates (JSMap.values (roundNumbers g)))
                (target (JSMap.values (roundNumbers g))) (roundNumbers g))
      as [_ [[Hnull _]|[w [Hw [_ [Hc _]]]]]]; [congruence|].
    rewrite Hc, (known_playerRef g w Hknown Hw). intros [= <-].
    apply in_map, Hw.
Qed.

(** In a session whose submitters are alive and whose alive players are above
    the threshold, the winner is alive before and after the resolution, with
    the same points. *)
Lemma winner_alive_after (g g' : DeathGame) (r : RoundResult) (k : string) :
  wellFormed g -> JSMap.wf (players g) -> submittersAlive g ->
  aboveFloor (players g) ->
  calculateRoundResults g = Some (g', r) -> winner r = PlayerRef k ->
  exists p p',
    JSMap.get (players g) k = Some p /\ JSMap.get (players g') k = Some p'
    /\ isAlive p = true /\ isAlive p' = true /\ points p' = points p.
Proof.
  intros Hwf Hwfp Hsub Hfloor Hcalc Hwin.
  pose proof (winner_submitted g g' r k Hwf Hcalc Hwin) as Hk.
  destruct (aliveIds_get _ k Hwfp (Hsub k Hk)) as [p [Hp Hal]].
  assert (Hpts : -10 < points p).
  { unfold aboveFloor in Hfloor. rewrite Forall_forall in Hfloor.
    apply Hfloor; [|exact Hal]. apply get_In in Hp.
    apply (in_map snd) in Hp. exact Hp. }
  exists p. destruct (specialRule g) eqn:Hspecial.
  - destruct (gameOver_iff_cases g Hwf) as [g1 [r1 [Hcalc1 [_ Hsame]]]].
    rewrite Hcalc in Hcalc1. injection Hcalc1 as <- <-.
    rewrite (Hsame Hspecial). exists p. auto.
  - destruct (resolution_players g Hwf Hspecial)
      as [g1 [r1 [ps1 [Hcalc1 [_ [_ [Hps [_ [_ [_ [_ Hget]]]]]]]]]]].
    rewrite Hcalc in Hcalc1. injection Hcalc1 as -> ->.
    destruct (Hget k p Hp) as [p1 [Hp1 [Hal1 Hpts1]]].
    simpl in Hwin. unfold pointsChange in Hpts1. rewrite Hwin in Hpts1.
    unfold jsref_eqb in Hpts1. rewrite String.eqb_refl in Hpts1.
    assert (Hsame : points p1 = points p)
      by (destruct (JSMap.get (roundNumbers g) k); lia).
    exists (eliminated p1). rewrite Hps, get_map_values, Hp1.
    split; [exact Hp|]. split; [reflexivity|]. split; [exact Hal|].
    rewrite eliminated_points, eliminated_isAlive, Hal1, Hal, Hsame.
    split; [|reflexivity]. apply Z.leb_gt in Hpts. rewrite Hpts. reflexivity.
Qed.

(** What holds of a session in a round in which nobody was eliminated yet. *)
Lemma round_without_elimination (ps : JSMap.t Player) (ops : list Op)
  (g0 g : DeathGame) :
  newPlayers ps -> JSMap.wf ps ->
  runRound ops (newDeathGame ps) (newDeathGame ps) = Some (g0, g) ->
  eliminatedCount g = eliminatedCount g0 ->
  wellFormed g /\ JSMap.wf (players g) /\ submittersAlive g
  /\ aboveFloor (players g).
Proof.
  intros Hnew Hwf Hrun Heq.
  pose proof (runRound_run _ _ _ _ _ Hrun) as Hrun1.
  destruct (run_wellFormed ops (newDeathGame ps) (wellFormed_new ps))
    as [g1 [Hrun2 Hwfg]].
  rewrite Hrun1 in Hrun2. injection Hrun2 as <-.
  split; [exact Hwfg|]. split; [|split].
  - unfold JSMap.wf. rewrite (run_keys ops _ _ Hrun1). exact Hwf.
  - pose proof (roundInv_runRound ops _ _ _ _
                  (roundInv_open (newDeathGame ps) eq_refl) Hrun)
      as [Hkeys [_ [_ Hsame]]].
    unfold submittersAlive.
    rewrite aliveIds_lives, (Hsame Heq), <- aliveIds_lives. exact Hkeys.
  - exact (aboveFloor_run ops (newDeathGame ps) g
             (aboveFloor_new ps Hnew) Hrun1).
Qed.

End WinnerFacts.

Import WinnerFacts.

(** X7. The winner of a round is not eliminated by it: when a resolution in a
    round in which nobody was eliminated before names a player the winner,
    that player was alive, is alive after the resolution and has the points
    it had. *)
Theorem winner_stays_alive (ps : JSMap.t Player) (ops : list Op)
  (g0 g g' : DeathGame) (r : RoundResult) (k : string) :
  newPlayers ps -> JSMap.wf ps ->
  runRound ops (newDeathGame ps) (newDeathGame ps) = Some (g0, g) ->
  eliminatedCount g = eliminatedCount g0 ->
  calculateRoundResults g = Some (g', r) -> winner r = PlayerRef k ->
  exists p p',
    JSMap.get (players g) k = Some p /\ JSMap.get (players g') k = Some p'
    /\ isAlive p = true /\ isAlive p' = true /\ points p' = points p.
Proof.
  intros Hnew Hwf Hrun Heq Hcalc Hwin.
  destruct (round_without_elimination ps ops g0 g Hnew Hwf Hrun Heq)
    as [Hwfg [Hwfp [Hsub Hfloor]]].
  exact (winner_alive_after g g' r k Hwfg Hwfp Hsub Hfloor Hcalc Hwin).
Qed.

(** X8. When a resolution on the ordinary path, in a round in which nobody
    was eliminated before, reports [gameOver] and names a winner, the winner
    is the one player still alive. *)
Theorem game_over_winner_is_last_alive (ps : JSMap.t Player) (ops : list Op)
  (g0 g g' : DeathGame) (r : Results) (k : string) :
  newPlayers ps -> JSMap.wf ps ->
  runRound ops (newDeathGame ps) (newDeathGame ps) = Some (g0, g) ->
  eliminatedCount g = eliminatedCount g0 ->
  calculateRoundResults g = Some (g', NormalResult r) ->
  res_gameOver r = true -> res_winner r = PlayerRef k ->
  aliveIds (players g') = [k].
Proof.
  intros Hnew Hwf Hrun Heq Hcalc Hover Hwin.
  destruct (round_without_elimination ps ops g0 g Hnew Hwf Hrun Heq)
    as [Hwfg [Hwfp [Hsub Hfloor]]].
  destruct (winner_alive_after g g' (NormalResult r) k Hwfg Hwfp Hsub Hfloor
              Hcalc Hwin) as [p [p' [_ [Hp' [_ [Hal' _]]]]]].
  pose proof (get_aliveIds _ _ _ Hp' Hal') as Hin.
  assert (Hspecial : specialRule g = false).
  { apply calculateRoundResults_cases in Hcalc.
    destruct Hcalc as [[_ [_ H]]|[H _]]; [discriminate | exact H]. }
  destruct (resolution_players g Hwfg Hspecial)
    as [g1 [r1 [ps1 [Hcalc1 [_ [_ [_ [_ [Hres _]]]]]]]]].
  rewrite Hcalc in Hcalc1. injection Hcalc1 as -> ->.
  rewrite Hover in Hres. symmetry in Hres. apply Z.leb_le in Hres.
  rewrite <- aliveIds_length in Hres.
  destruct (aliveIds (players g1)) as [|k1 [|k2 rest]]; simpl in *.
  - destruct Hin.
  - destruct Hin as [->|[]]. reflexivity.
  - lia.
Qed.

(** [winner_stays_alive] at the last resolution of the duel between [d] and
    [e]. *)
Lemma winner_stays_alive_witness :
  exists g0 g' r,
    newPlayers Scenario.five /\ JSMap.wf Scenario.five
    /\ runRound Endgame.lastRoundOpen (newDeathGame Scenario.five)
         (newDeathGame Scenario.five) = Some (g0, Endgame.gLast)
    /\ eliminatedCount Endgame.gLast = eliminatedCount g0
    /\ calculateRoundResults Endgame.gLast = Some (g', r)
    /\ winner r = PlayerRef "e"
    /\ exists p p',
         JSMap.get (players Endgame.gLast) "e" = Some p
         /\ JSMap.get (players g') "e" = Some p'
         /\ isAlive p = true /\ isAlive p' = true /\ points p' = points p.
Proof.
  assert (Hwf : JSMap.wf Scenario.five)
    by (unfold JSMap.wf; simpl; repeat constructor; simpl;
        intuition discriminate).
  eexists. eexists. eexists.
  split; [exact newPlayers_five|]. split; [exact Hwf|].
  split; [vm_compute; reflexivity|]. split; [reflexivity|].
  split; [vm_compute; reflexivity|]. split; [reflexivity|].
  eapply (winner_stays_alive Scenario.five Endgame.lastRoundOpen);
    [exact newPlayers_five | exact Hwf | vm_compute; reflexivity
    | reflexivity | vm_compute; reflexivity | reflexivity].
Defined.

(** [game_over_winner_is_last_alive] at the same resolution, which
    eliminates [d]. *)
Lemma game_over_winner_is_last_alive_witness :
  exists g0 g' r,
    newPlayers Scenario.five /\ JSMap.wf Scenario.five
    /\ runRound Endgame.lastRoundOpen (newDeathGame Scenario.five)
         (newDeathGame Scenario.five) = Some (g0, Endgame.gLast)
    /\ eliminatedCount Endgame.gLast = eliminatedCount g0
    /\ calculateRoundResults Endgame.gLast = Some (g', NormalResult r)
    /\ res_gameOver r = true /\ res_winner r = PlayerRef "e"
    /\ aliveIds (players g') = ["e"%string].
Proof.
  assert (Hwf : JSMap.wf Scenario.five)
    by (unfold JSMap.wf; simpl; repeat constructor; simpl;
        intuition discriminate).
  eexists. eexists. eexists.
  split; [exact newPlayers_five|]. split; [exact Hwf|].
  split; [vm_compute; reflexivity|]. split; [reflexivity|].
  split; [vm_compute; reflexivity|]. split; [reflexivity|].
  split; [reflexivity|].
  eapply (game_over_winner_is_last_alive Scenario.five Endgame.lastRoundOpen);
    [exact newPlayers_five | exact Hwf | vm_compute; reflexivity
    | reflexivity | vm_compute; reflexivity | reflexivity | reflexivity].
Defined.

(** ** The reported duplicates and the empty round *)

Module ReportFacts.

Import FloatFacts DuplicateFacts OrderFacts.

Lemma nan_in_duplicates (rest pre : list float) :
  existsb is_nan
    (duplicatesFrom (pre ++ rest) rest (Z.of_nat (List.length pre)))
  = existsb is_nan rest.
Proof.
  revert pre. induction rest as [|num rest IH]; intros pre; [reflexivity|].
  rewrite duplicatesFrom_cons, existsb_app, IH. cbn [existsb].
  destruct (existsb (fun y => Num.strictEq y num) pre
            || negb (Num.strictEq num num)) eqn:G; simpl.
  - rewrite orb_false_r. reflexivity.
  - apply orb_false_iff in G. destruct G as [_ G].
    unfold is_nan at 2. unfold Num.strictEq in G. rewrite G. reflexivity.
Qed.

Lemma includes_nan (l : list float) (v : float) :
  is_nan v = true -> Num.includes l v = existsb is_nan l.
Proof.
  intros Hv. unfold Num.includes.
  induction l as [|y l IH]; simpl; [reflexivity|].
  rewrite IH. unfold Num.sameValueZero.
  rewrite Hv, andb_true_r. fold (Num.strictEq y v).
  rewrite (strictEq_nan_r y v Hv). reflexivity.
Qed.

Lemma occurrences_nan (l : list float) (v : float) :
  is_nan v = true -> occurrences l v = 0%nat.
Proof.
  intros Hv. unfold occurrences.
  induction l as [|y l IH]; simpl; [reflexivity|].
  rewrite (strictEq_nan_r y v Hv). exact IH.
Qed.

End ReportFacts.

Import ReportFacts.

(** X9. The [duplicates] a resolution reports include a value other than NaN
    exactly when two or more submissions carry it. NaN is never carried by
    two submissions in the sense of [===], yet the list includes NaN as soon
    as one submission is NaN, because [indexOf] never finds NaN. *)
Theorem duplicates_reported (numbers : list float) (v : float) :
  (is_nan v = false ->
   Num.includes (duplicates numbers) v = shared numbers v)
  /\ (is_nan v = true ->
      shared numbers v = false
      /\ Num.includes (duplicates numbers) v = Num.includes numbers v).
Proof.
  split.
  - intros Hv. destruct (shared numbers v) eqn:Hs.
    + exact (shared_includes numbers v Hs).
    + destruct (Num.includes (duplicates numbers) v) eqn:Hi; [|reflexivity].
      rewrite (includes_shared numbers v Hi Hv) in Hs. discriminate.
  - intros Hv. split.
    + unfold shared. rewrite (occurrences_nan numbers v Hv). reflexivity.
    + rewrite !includes_nan by exact Hv.
      exact (nan_in_duplicates numbers []).
Qed.

(** X10. A resolution of a round without submissions returns on the ordinary
    path with NaN (0 / 0) as average and as target, no duplicates and no
    winner, and changes nobody's points. *)
Theorem empty_round (g : DeathGame) :
  roundNumbers g = JSMap.empty ->
  exists g' r,
    calculateRoundResults g = Some (g', NormalResult r)
    /\ is_nan (res_average r) = true /\ is_nan (res_target r) = true
    /\ res_duplicates r = [] /\ res_winner r = Null
    /\ forall k p, JSMap.get (players g) k = Some p ->
         exists p', JSMap.get (players g') k = Some p'
           /\ points p' = points p.
Proof.
  intros Hempty.
  assert (Hwf : wellFormed g)
    by (unfold wellFormed, knownSubmitters; rewrite Hempty;
        split; [constructor | reflexivity]).
  assert (Hspecial : specialRule g = false).
  { unfold specialRule. rewrite Hempty. simpl. apply andb_false_r. }
  destruct (resolution_players g Hwf Hspecial)
    as [g' [r [ps1 [Hcalc [_ [_ [Hps [_ [_ [Htgt [Hwin Hpts]]]]]]]]]]].
  exists g', r. split; [exact Hcalc|].
  pose proof Hcalc as Hfields. unfold calculateRoundResults in Hfields.
  rewrite Hspecial, Hempty in Hfields. cbn [JSMap.values map] in Hfields.
  destruct (applyPenalties _ _ (players g) JSMap.empty) as [ps1'|];
    [|discriminate].
  destruct (checkEliminations ps1' (eliminatedCount g)) as [[ps2 count] elims].
  injection Hfields as _ <-. cbn [res_average res_target res_duplicates
    res_winner]. repeat (split; [reflexivity|]).
  intros k p Hk. destruct (Hpts k p Hk) as [p1 [Hp1 [_ Hsame]]].
  exists (eliminated p1). rewrite Hps, get_map_values, Hp1.
  split; [reflexivity|]. rewrite eliminated_points, Hsame.
  unfold pointsChange. rewrite Hempty. simpl. lia.
Qed.

(** [empty_round] right after the first [startRound] on five new players. *)
Lemma empty_round_witness :
  let g := fst (startRound 0 (newDeathGame Scenario.five)) in
  roundNumbers g = JSMap.empty
  /\ exists g' r,
       calculateRoundResults g = Some (g', NormalResult r)
       /\ is_nan (res_average r) = true /\ is_nan (res_target r) = true
       /\ res_duplicates r = [] /\ res_winner r = Null
       /\ forall k p, JSMap.get (players g) k = Some p ->
            exists p', JSMap.get (players g') k = Some p'
              /\ points p' = points p.
Proof.
  intros g. split; [reflexivity|]. exact (empty_round g eq_refl).
Defined.

(** ** Round information *)

Module InfoFacts.

Import CountFacts.


Lemma size_keys {V : Type} (m m' : JSMap.t V) :
  JSMap.keys m = JSMap.keys m' -> JSMap.size m = JSMap.size m'.
Proof.
  unfold JSMap.size, JSMap.keys. intros H.
  apply (f_equal (@List.length _)) in H. rewrite !length_map in H.
  rewrite H. reflexivity.
Qed.

End InfoFacts.

Import InfoFacts.

(** X11. In a game of five that is not over (two or more players alive), the
    round the timer callback opens is announced with the round number one
    higher, the time limit 300 if somebody has been eliminated and 60 if
    nobody has, and the alive players as players remaining. *)
Theorem next_round_info (ps : JSMap.t Player) (ops : list Op) (g : DeathGame)
  (now : Z) :
  newPlayers ps -> JSMap.size ps = 5 ->
  run ops (newDeathGame ps) = Some g -> 2 <= aliveCount (players g) ->
  snd (nextRound now g)
  = {| info_round := round g + 1;
       info_timeLimit := if 0 <? eliminatedCount g then 300 else 60;
       info_playersRemaining := 5 - eliminatedCount g |}.
Proof.
  intros Hnew Hfive Hrun Halive.
  assert (H0 : eliminatedCount (newDeathGame ps)
               = deadCount (players (newDeathGame ps))
               /\ 1 <= round (newDeathGame ps)).
  { simpl. rewrite (deadCount_new ps Hnew). split; [reflexivity | lia]. }
  destruct (run_counters ops _ _ Hrun H0) as [Hdead Hround].
  pose proof (alive_dead_size (players g)) as Hsum.
  rewrite (size_keys _ _ (run_keys ops _ _ Hrun)) in Hsum.
  cbn [players newDeathGame] in Hsum. rewrite Hfive, <- Hdead in Hsum.
  assert (Hpos : 0 <= deadCount (players g)) by (unfold deadCount; lia).
  rewrite <- Hdead in Hpos.
  unfold nextRound, startRound, isNewRuleRound.
  cbn [snd fst players round eliminatedCount].
  rewrite (size_keys _ _ (run_keys ops _ _ Hrun)).
  cbn [players newDeathGame]. rewrite Hfive. f_equal; [|lia].
  repeat match goal with
  | |- context [?a =? ?b] => destruct (Z.eqb_spec a b)
  end;
  destruct (Z.ltb_spec 0 (eliminatedCount g)); simpl; try reflexivity; lia.
Qed.

(** [next_round_info] after the tenth resolution of the scenario, which left
    two players alive. *)
Lemma next_round_info_witness :
  newPlayers Scenario.five /\ JSMap.size Scenario.five = 5
  /\ run Scenario.tenRounds (newDeathGame Scenario.five) = Some Scenario.gTen
  /\ 2 <= aliveCount (players Scenario.gTen)
  /\ snd (nextRound 0 Scenario.gTen)
     = {| info_round := round Scenario.gTen + 1;
          info_timeLimit :=
            if 0 <? eliminatedCount Scenario.gTen then 300 else 60;
          info_playersRemaining := 5 - eliminatedCount Scenario.gTen |}.
Proof.
  pose proof (proj1 gTen_reached) as Hrun.
  assert (Halive : 2 <= aliveCount (players Scenario.gTen))
    by (vm_compute; discriminate).
  split; [exact newPlayers_five|]. split; [reflexivity|].
  split; [exact Hrun|]. split; [exact Halive|].
  exact (next_round_info Scenario.five Scenario.tenRounds Scenario.gTen 0
           newPlayers_five eq_refl Hrun Halive).
Defined.

(** ** The handlers *)



(** X13. [createRoom] does not look whether its code is in use: afterwards
    the waiting room under the code holds the creator alone, whatever was
    waiting there, the number of waiting rooms grows only if the code was
    free, and the other waiting rooms and the games are as before. *)
Theorem createRoom_replaces (socketId playerName roomCode : string)
  (srv : Server) :
  let srv' := createRoom socketId playerName roomCode srv in
  JSMap.get (waitingRooms srv') roomCode
  = Some {| host := socketId;
            room_players := [(socketId, newPlayer socketId playerName)] |}
  /\ JSMap.size (waitingRooms srv')
     = (if JSMap.has (waitingRooms srv) roomCode
        then JSMap.size (waitingRooms srv)
        else JSMap.size (waitingRooms srv) + 1)
  /\ (forall code, roomCode <> code ->
        JSMap.get (waitingRooms srv') code = JSMap.get (waitingRooms srv) code)
  /\ games srv' = games srv.
Proof.
  unfold createRoom. cbn [waitingRooms games].
  split; [apply get_set_same|]. split; [apply size_set|].
  split; [intros code Hne; apply get_set_other, Hne | reflexivity].
Qed.

(** X14. A socket that joins a room it is in does not fill the room: the room
    keeps its players' ids, the socket's player is replaced by a new one, no
    game starts and the games are as before. *)
Theorem rejoin_keeps_room (srv : Server) (socketId roomCode playerName : string)
  (now : Z) (room : Room) :
  serverReachable srv ->
  JSMap.get (waitingRooms srv) roomCode = Some room ->
  JSMap.has (room_players room) socketId = true ->
  let srv' := fst (joinRoom socketId roomCode playerName now srv) in
  snd (joinRoom socketId roomCode playerName now srv) = JoinedRoom None
  /\ games srv' = games srv
  /\ exists room',
       JSMap.get (waitingRooms srv') roomCode = Some room'
       /\ host room' = host room
       /\ JSMap.keys (room_players room') = JSMap.keys (room_players room)
       /\ JSMap.get (room_players room') socketId
          = Some (newPlayer socketId playerName).
Proof.
  intros Hreach Hroom Hin.
  destruct (roomsBelowQuorum_reachable srv Hreach) as [_ Hsize].
  destruct (Hsize roomCode room Hroom) as [Hroom4 _].
  unfold joinRoom. rewrite Hroom.
  replace (JSMap.size (room_players room) >=? 5) with false
    by (symmetry; rewrite Z.geb_leb; apply Z.leb_gt; lia).
  rewrite size_set, Hin.
  replace (JSMap.size (room_players room) =? 5) with false
    by (symmetry; apply Z.eqb_neq; lia).
  cbn [fst snd games waitingRooms]. split; [reflexivity|].
  split; [reflexivity|]. eexists. split; [apply get_set_same|].
  cbn [host room_players]. split; [reflexivity|].
  split; [apply keys_set_has, Hin | apply get_set_same].
Qed.

(** [rejoin_keeps_room] when [b] joins the room of four a second time. *)
Lemma rejoin_keeps_room_witness :
  exists room,
    serverReachable Scenario.roomOfFour
    /\ JSMap.get (waitingRooms Scenario.roomOfFour) "ROOM01" = Some room
    /\ JSMap.has (room_players room) "b" = true
    /\ snd (joinRoom "b" "ROOM01" "Bea" 0 Scenario.roomOfFour)
       = JoinedRoom None
    /\ games (fst (joinRoom "b" "ROOM01" "Bea" 0 Scenario.roomOfFour))
       = games Scenario.roomOfFour
    /\ exists room',
         JSMap.get
           (waitingRooms (fst (joinRoom "b" "ROOM01" "Bea" 0
                                 Scenario.roomOfFour))) "ROOM01" = Some room'
         /\ host room' = host room
         /\ JSMap.keys (room_players room') = JSMap.keys (room_players room)
         /\ JSMap.get (room_players room') "b" = Some (newPlayer "b" "Bea").
Proof.
  eexists. split; [exact roomOfFour_reachable|].
  split; [reflexivity|]. split; [reflexivity|].
  exact (rejoin_keeps_room Scenario.roomOfFour "b" "ROOM01" "Bea" 0 _
           roomOfFour_reachable eq_refl eq_refl).
Defined.

(** X15. The [submitNumber] handler is an event on one game: it leaves the
    waiting rooms and the games under other codes as they are; for a code
    that names no game it does nothing at all; and it arms the timer only
    after broadcasting a round result that is not game over, for a game that
    stays registered under the code. *)
Theorem handler_touches_one_game (socketId roomCode : string) (num : float)
  (srv srv' : Server) (out : list Emit) (armed : bool) :
  submitNumberHandler socketId roomCode num srv = Some (srv', out, armed) ->
  serverStep srv srv'
  /\ waitingRooms srv' = waitingRooms srv
  /\ (forall code, roomCode <> code ->
        JSMap.get (games srv') code = JSMap.get (games srv) code)
  /\ (JSMap.get (games srv) roomCode = None ->
      srv' = srv /\ out = [] /\ armed = false)
  /\ (armed = true ->
      exists game results,
        JSMap.get (games srv') roomCode = Some game
        /\ out = [RoundResultsEvent results]
        /\ gameOver results = false).
Proof.
  unfold submitNumberHandler. intros H.
  assert (Hstep : waitingRooms srv' = waitingRooms srv -> serverStep srv srv').
  { intros Hw. destruct srv' as [gs ws]. simpl in Hw. subst ws.
    apply step_game. }
  destruct (JSMap.get (games srv) roomCode) as [game|] eqn:Hgame.
  - destruct (submitNumber game socketId num) as [game1 all].
    destruct all.
    + destruct (calculateRoundResults game1) as [[game2 results]|];
        [|discriminate].
      destruct (gameOver results) eqn:Hover; injection H as <- <- <-;
        cbn [games waitingRooms].
      * split; [apply Hstep; reflexivity|]. split; [reflexivity|].
        split; [intros code Hne; apply get_delete_other, Hne|].
        split; [discriminate | discriminate].
      * split; [apply Hstep; reflexivity|]. split; [reflexivity|].
        split; [intros code Hne; apply get_set_other, Hne|].
        split; [discriminate|]. intros _. exists game2, results.
        split; [apply get_set_same | auto].
    + injection H as <- <- <-. cbn [games waitingRooms].
      split; [apply Hstep; reflexivity|]. split; [reflexivity|].
      split; [intros code Hne; apply get_set_other, Hne|].
      split; discriminate.
  - injection H as <- <- <-.
    split; [apply Hstep; reflexivity|]. split; [reflexivity|].
    split; [reflexivity|]. split; [auto | discriminate].
Qed.

(** [handler_touches_one_game] when [e] hands in the fifth submission of
    scenario A. *)
Lemma handler_touches_one_game_witness :
  exists srv' out,
    submitNumberHandler "e" "ROOM01" 90 Endgame.fourSubmitted
    = Some (srv', out, true)
    /\ serverStep Endgame.fourSubmitted srv'
    /\ waitingRooms srv' = waitingRooms Endgame.fourSubmitted
    /\ (forall code, "ROOM01"%string <> code ->
          JSMap.get (games srv') code
          = JSMap.get (games Endgame.fourSubmitted) code)
    /\ (JSMap.get (games Endgame.fourSubmitted) "ROOM01" = None ->
        srv' = Endgame.fourSubmitted /\ out = [] /\ true = false)
    /\ (true = true ->
        exists game results,
          JSMap.get (games srv') "ROOM01" = Some game
          /\ out = [RoundResultsEvent results]
          /\ gameOver results = false).
Proof.
  eexists. eexists. split; [vm_compute; reflexivity|].
  eapply (handler_touches_one_game "e" "ROOM01" 90 Endgame.fourSubmitted).
  vm_compute. reflexivity.
Defined.



(** ** The handler on the games of the server *)

Module HandlerFacts.

Import SessionFacts.


End HandlerFacts.

Import HandlerFacts.



(** X18. A resolution touches submitters only: in a session reached from a
    game on new players, a player without an entry in [roundNumbers] has the
    same points and the same [isAlive] after [calculateRoundResults] as
    before, so a player who does not submit is neither penalised nor
    eliminated. *)
Theorem non_submitter_untouched (ps : JSMap.t Player) (ops : list Op)
  (g g' : DeathGame) (r : RoundResult) (k : string) (p : Player) :
  newPlayers ps -> run ops (newDeathGame ps) = Some g ->
  calculateRoundResults g = Some (g', r) ->
  JSMap.get (players g) k = Some p ->
  ~ In k (JSMap.keys (roundNumbers g)) ->
  exists p', JSMap.get (players g') k = Some p'
    /\ points p' = points p /\ isAlive p' = isAlive p.
Proof.
  intros Hnew Hrun Hcalc Hk Hout.
  destruct (run_wellFormed ops (newDeathGame ps) (wellFormed_new ps))
    as [g1 [Hrun1 Hwf]].
  rewrite Hrun in Hrun1. injection Hrun1 as <-.
  pose proof (aboveFloor_run ops (newDeathGame ps) g
                (aboveFloor_new ps Hnew) Hrun) as Hfloor.
  destruct (specialRule g) eqn:Hspecial.
  - destruct (gameOver_iff_cases g Hwf) as [g1 [r1 [Hcalc1 [_ Hsame]]]].
    rewrite Hcalc in Hcalc1. injection Hcalc1 as <- <-.
    rewrite (Hsame Hspecial). exists p. auto.
  - destruct (resolution_players g Hwf Hspecial)
      as [g1 [r1 [ps1 [Hcalc1 [_ [_ [Hps [_ [_ [_ [_ Hget]]]]]]]]]]].
    rewrite Hcalc in Hcalc1. injection Hcalc1 as -> ->.
    destruct (Hget k p Hk) as [p1 [Hp1 [Hal1 Hpts1]]].
    unfold pointsChange in Hpts1.
    destruct (JSMap.get (roundNumbers g) k) as [num|] eqn:Hnum.
    + destruct Hout. apply get_In in Hnum. apply (in_map fst) in Hnum.
      exact Hnum.
    + exists (eliminated p1). rewrite Hps, get_map_values, Hp1.
      split; [reflexivity|].
      rewrite eliminated_points, eliminated_isAlive, Hal1.
      split; [lia|]. destruct (isAlive p) eqn:Hal; [|reflexivity].
      unfold aboveFloor in Hfloor. rewrite Forall_forall in Hfloor.
      assert (Hp : -10 < points p).
      { apply Hfloor; [|exact Hal]. apply get_In in Hk.
        apply (in_map snd) in Hk. exact Hk. }
      replace (points p1 <=? -10) with false
        by (symmetry; apply Z.leb_gt; lia).
      reflexivity.
Qed.

(** [non_submitter_untouched] for [e] when the first round is resolved with
    the submissions of [a], [b], [c] and [d] only. *)
Lemma non_submitter_untouched_witness :
  let ops :=
    OpStartRound 0
    :: Scenario.submissions
         [("a", 50); ("b", 50); ("c", 30); ("d", 70)]%string%float in
  exists g g' r,
    newPlayers Scenario.five
    /\ run ops (newDeathGame Scenario.five) = Some g
    /\ calculateRoundResults g = Some (g', r)
    /\ JSMap.get (players g) "e" = Some (newPlayer "e" "Eve")
    /\ ~ In "e"%string (JSMap.keys (roundNumbers g))
    /\ exists p', JSMap.get (players g') "e" = Some p'
         /\ points p' = points (newPlayer "e" "Eve")
         /\ isAlive p' = isAlive (newPlayer "e" "Eve").
Proof.
  intros ops. eexists. eexists. eexists.
  split; [exact newPlayers_five|].
  split; [vm_compute; reflexivity|].
  split; [vm_compute; reflexivity|].
  split; [reflexivity|].
  assert (Hout : ~ In "e"%string
                   (JSMap.keys [("a"%string, 50%float); ("b"%string, 50%float);
                                ("c"%string, 30%float); ("d"%string, 70%float)]))
    by (simpl; intuition discriminate).
  split; [exact Hout|].
  eapply (non_submitter_untouched Scenario.five ops);
    [exact newPlayers_five | vm_compute; reflexivity
    | vm_compute; reflexivity | reflexivity | exact Hout].
Defined.
